(** * neon/data/questionanswer.py: the bAbI loader and the QA minibatch iterator

    A shallow embedding of [neon.data.questionanswer] (Python 2) and the
    properties of its parser, vocabulary builder, vectoriser and
    minibatch generator.

    Conventions of the embedding:
    - a Python 2 [str] is a list of bytes, a [unicode] object a list of
      code points (a UCS-4 build), both as lists of [N];
    - a call that may raise returns a [result]: [Ok v] or [Raise e];
    - Python [int]s that only count or index (lengths, batch sizes, word
      indices) are [nat];
    - a [dict] is a [gmap], a [set] is a [gset] together with the order in
      which the interpreter iterates over it. *)

From Stdlib Require Import NArith ZArith String Ascii List Sorting.Sorted.
From stdpp Require Import base option list sorting gmap.

Open Scope N_scope.

(** ** Python values and exceptions *)

Module Py.

Inductive exn : Type :=
  | TypeError
  | ValueError
  | KeyError
  | IndexError
  | ZeroDivisionError
  | UnicodeDecodeError.

Inductive result (A : Type) : Type :=
  | Ok (v : A)
  | Raise (e : exn).
Arguments Ok {A} v.
Arguments Raise {A} e.

#[global] Instance result_ret : MRet result := fun A v => Ok v.
#[global] Instance result_bind : MBind result := fun A B f m =>
  match m with
  | Ok v => f v
  | Raise e => Raise e
  end.
#[global] Instance result_fmap : FMap result := fun A B f m =>
  match m with
  | Ok v => Ok (f v)
  | Raise e => Raise e
  end.

(** [str]: bytes.  [unicode]: code points. *)
Definition bytes := list N.
Definition ustring := list N.

Definition bytes_of_string (s : string) : bytes :=
  map N_of_ascii (list_ascii_of_string s).

(** A [unicode] literal written in ASCII. *)
Definition u (s : string) : ustring := bytes_of_string s.

Definition LF : N := 10.
Definition TAB : N := 9.
Definition SPACE : N := 32.

(** The escapes [\n] and [\t] of a string literal. *)
Definition nl : string := String "010" EmptyString.
Definition tab : string := String "009" EmptyString.

(** [s.split(sep)] for a one-character separator: never empty, one more
    piece than there are separators. *)
Fixpoint split_char (sep : N) (s : list N) : list (list N) :=
  match s with
  | [] => [[]]
  | c :: s' =>
      if c =? sep then [] :: split_char sep s'
      else match split_char sep s' with
           | [] => [[c]]
           | piece :: pieces => (c :: piece) :: pieces
           end
  end.

(** [s.split(sep, 1)]: the text before and after the first separator, or
    no cut when there is none (the list [[s]] in Python). *)
Fixpoint split_once (sep : N) (s : list N) : option (list N * list N) :=
  match s with
  | [] => None
  | c :: s' =>
      if c =? sep then Some ([], s')
      else '(a, b) ← split_once sep s'; Some (c :: a, b)
  end.

(** [l[:-1]] *)
Definition drop_last {A} (l : list A) : list A := removelast l.

(** [s.decode('utf-8')], strict, as CPython 2.7 does it: shortest form
    only, at most U+10FFFF, surrogates let through. *)
Definition is_cont (b : N) : bool := (128 <=? b) && (b <=? 191).

Fixpoint utf8_decode (bs : bytes) : result ustring :=
  match bs with
  | [] => Ok []
  | b0 :: r0 =>
      if b0 <? 128 then cons b0 <$> utf8_decode r0
      else if (194 <=? b0) && (b0 <=? 223) then
        match r0 with
        | b1 :: r1 =>
            if is_cont b1
            then cons ((b0 - 192) * 64 + (b1 - 128)) <$> utf8_decode r1
            else Raise UnicodeDecodeError
        | _ => Raise UnicodeDecodeError
        end
      else if (224 <=? b0) && (b0 <=? 239) then
        match r0 with
        | b1 :: b2 :: r2 =>
            if is_cont b1 && is_cont b2 && negb ((b0 =? 224) && (b1 <? 160))
            then cons ((b0 - 224) * 4096 + (b1 - 128) * 64 + (b2 - 128))
                   <$> utf8_decode r2
            else Raise UnicodeDecodeError
        | _ => Raise UnicodeDecodeError
        end
      else if (240 <=? b0) && (b0 <=? 244) then
        match r0 with
        | b1 :: b2 :: b3 :: r3 =>
            if is_cont b1 && is_cont b2 && is_cont b3
               && negb ((b0 =? 240) && (b1 <? 144))
               && negb ((b0 =? 244) && (143 <? b1))
            then cons ((b0 - 240) * 262144 + (b1 - 128) * 4096
                       + (b2 - 128) * 64 + (b3 - 128))
                   <$> utf8_decode r3
            else Raise UnicodeDecodeError
        | _ => Raise UnicodeDecodeError
        end
      else Raise UnicodeDecodeError
  end.

(** [Py_UNICODE_ISSPACE]: what [unicode.strip()] removes. *)
Definition is_space (c : N) : bool :=
  ((9 <=? c) && (c <=? 13)) || ((28 <=? c) && (c <=? 32))
  || (c =? 133) || (c =? 160) || (c =? 5760) || (c =? 6158)
  || ((8192 <=? c) && (c <=? 8202)) || (c =? 8232) || (c =? 8233)
  || (c =? 8239) || (c =? 8287) || (c =? 12288).

Fixpoint lstrip (s : ustring) : ustring :=
  match s with
  | [] => []
  | c :: s' => if is_space c then lstrip s' else s
  end.

Definition rstrip (s : ustring) : ustring := rev (lstrip (rev s)).

Definition strip (s : ustring) : ustring := rstrip (lstrip s).

(** Truth value of a sequence: non-empty. *)
Definition truthy {A} (l : list A) : bool :=
  match l with [] => false | _ :: _ => true end.

(** [Py_UNICODE_TODECIMAL]: the decimal digits of Unicode 5.2.0, the
    version CPython 2.7 carries.  They come in runs of ten, 0 to 9; the
    list holds the zero of each run: ASCII, Arabic-Indic, Extended
    Arabic-Indic, NKo, Devanagari, Bengali, Gurmukhi, Gujarati, Oriya,
    Tamil, Telugu, Kannada, Malayalam, Thai, Lao, Tibetan, Myanmar,
    Myanmar Shan, Khmer, Mongolian, Limbu, New Tai Lue, Tai Tham Hora,
    Tai Tham Tham, Balinese, Sundanese, Lepcha, Ol Chiki, Vai,
    Saurashtra, Kayah Li, Javanese, Cham, Meetei Mayek, Fullwidth,
    Osmanya, and the five runs of mathematical digits.  One digit stands
    outside the runs in that version: U+19DA, New Tai Lue Tham digit
    one. *)
Definition decimal_zeros : list N :=
  [48; 1632; 1776; 1984; 2406; 2534; 2662; 2790; 2918; 3046; 3174; 3302;
   3430; 3664; 3792; 3872; 4160; 4240; 6112; 6160; 6470; 6608; 6784; 6800;
   6992; 7088; 7232; 7248; 42528; 43216; 43264; 43472; 43600; 44016; 65296;
   66720; 120782; 120792; 120802; 120812; 120822].

Definition todecimal (c : N) : option N :=
  if c =? 6618 then Some 1
  else
    match List.find (fun zero => (zero <=? c) && (c <? zero + 10)) decimal_zeros with
    | Some zero => Some (c - zero)
    | None => None
    end.

(** [\d] of the [re] module without the UNICODE flag. *)
Definition is_digit (c : N) : bool := (48 <=? c) && (c <=? 57).

(** [int(s)] in base 10 for a [unicode] argument, which CPython 2 first
    rewrites with [PyUnicode_EncodeDecimal] (a blank for every whitespace
    character, the ASCII digit for every decimal digit) and then reads as
    blanks, an optional sign, blanks, one or more digits, blanks.
    Anything else is a ValueError; for a character outside Latin-1 it is
    its subclass UnicodeEncodeError, which the model does not tell
    apart. *)
Fixpoint digits_value (acc : Z) (s : ustring) : option Z :=
  match s with
  | [] => Some acc
  | c :: s' =>
      match todecimal c with
      | Some d => digits_value (10 * acc + Z.of_N d)%Z s'
      | None => None
      end
  end.

Definition int (s : ustring) : result Z :=
  let s := strip s in
  let '(neg, body) :=
    match s with
    | 45 :: r => (true, lstrip r)
    | 43 :: r => (false, lstrip r)
    | _ => (false, s)
    end in
  match body with
  | [] => Raise ValueError
  | _ :: _ =>
      match digits_value 0%Z body with
      | Some v => Ok (if neg then (- v)%Z else v)
      | None => Raise ValueError
      end
  end.

(** [\w] of the [re] module without the LOCALE and UNICODE flags. *)
Definition is_word (c : N) : bool :=
  is_digit c || ((65 <=? c) && (c <=? 90)) || ((97 <=? c) && (c <=? 122))
  || (c =? 95).

(** [re.split('(\W+)?', s)] in Python 2: an empty match never splits, so
    the string is cut at every maximal run of non-word characters, and the
    run itself (the captured group) is kept between its neighbours. *)
Inductive split_mode : Type :=
  | InText (piece : ustring)
  | InRun (sep : ustring).

Fixpoint re_split_from (m : split_mode) (s : ustring) : list ustring :=
  match s, m with
  | [], InText piece => [piece]
  | [], InRun sep => [sep; []]
  | c :: s', InText piece =>
      if is_word c then re_split_from (InText (piece ++ [c])) s'
      else piece :: re_split_from (InRun [c]) s'
  | c :: s', InRun sep =>
      if is_word c then sep :: re_split_from (InText [c]) s'
      else re_split_from (InRun (sep ++ [c])) s'
  end.

Definition re_split_nonword_opt (s : ustring) : list ustring :=
  re_split_from (InText []) s.

(** [reduce(f, seq)] without an initial value. *)
Definition reduce {A} (f : A → A → A) (l : list A) : result A :=
  match l with
  | [] => Raise TypeError
  | x :: rest => Ok (fold_left f rest x)
  end.

(** [max(seq)] on integers. *)
Definition max (l : list nat) : result nat :=
  match l with
  | [] => Raise ValueError
  | x :: rest => Ok (fold_left Nat.max rest x)
  end.

(** [a < b] on [unicode] objects: code point by code point. *)
Fixpoint ustring_ltb (a b : ustring) : bool :=
  match a, b with
  | _, [] => false
  | [], _ :: _ => true
  | x :: a', y :: b' =>
      if x <? y then true
      else if y <? x then false
      else ustring_ltb a' b'
  end.

Definition ustring_lt (a b : ustring) : Prop := ustring_ltb a b = true.

(** The order [sorted] sees: [a] may stay before [b] when not [b < a]. *)
Definition ustring_le (a b : ustring) : Prop := ustring_ltb b a = false.

#[global] Instance ustring_le_dec a b : Decision (ustring_le a b).
Proof. unfold ustring_le. apply _. Defined.

(** [sorted(xs)] *)
Definition sorted (l : list ustring) : list ustring :=
  merge_sort ustring_le l.

(** [dict(pairs)]: a later pair replaces an earlier one with its key. *)
Definition dict {V} (pairs : list (ustring * V)) : gmap ustring V :=
  fold_left (fun m kv => <[kv.1 := kv.2]> m) pairs ∅.

(** [enumerate(xs)] *)
Definition enumerate {A} (l : list A) : list (nat * A) :=
  zip (seq 0 (length l)) l.

End Py.

(** ** class BABI *)

Module BABI.
Import Py.

(** One parsed example: the story's words, the query's words, the answer. *)
Definition example : Type := list ustring * list ustring * ustring.

(** [BABI.data_to_list] *)
Definition data_to_list (data : bytes) : result (list ustring) :=
  let split_lines := drop_last (split_char LF data) in
  mapM (fun line => strip <$> utf8_decode line) split_lines.

(** [BABI.tokenize] *)
Definition tokenize (sentence : ustring) : list ustring :=
  map strip
      (List.filter (fun x => truthy (strip x)) (re_split_nonword_opt sentence)).

(** [BABI.flatten] *)
Definition flatten {A} (data : list (list A)) : result (list A) :=
  reduce (fun x y => x ++ y) data.

(** What the story buffer of [parse_babi] holds: a tokenised sentence, or
    the empty string left in the place of a question. *)
Inductive entry : Type :=
  | Sentence (sent : list ustring)
  | Placeholder.

(** [[x for x in story if x]]: the entries that are true, which are the
    sentences with at least one token. *)
Definition kept (x : entry) : option (list ustring) :=
  match x with
  | Sentence sent => if truthy sent then Some sent else None
  | Placeholder => None
  end.

Definition substory_of (story : list entry) : list (list ustring) :=
  omap kept story.

(** The accumulators of the loop of [parse_babi]. *)
Record parser : Type := Parser {
  data : list (list (list ustring) * list ustring * ustring);
  story : list entry
}.

(** The body of the loop of [parse_babi], for one line. *)
Definition parse_line (st : parser) (line : ustring) : result parser :=
  match split_once SPACE line with
  | None => Raise ValueError
  | Some (nid, line) =>
      n ← int nid;
      let story := if (n =? 1)%Z then [] else story st in
      if existsb (N.eqb TAB) line then
        match split_char TAB line with
        | [q; a; supporting] =>
            let substory := substory_of story in
            Ok (Parser (data st ++ [(substory, tokenize q, a)])
                       (story ++ [Placeholder]))
        | _ => Raise ValueError
        end
      else
        let sent := tokenize line in
        Ok (Parser (data st) (story ++ [Sentence sent]))
  end.

Fixpoint parse_lines (st : parser) (lines : list ustring) : result parser :=
  match lines with
  | [] => Ok st
  | line :: lines' => st' ← parse_line st line; parse_lines st' lines'
  end.

(** [BABI.parse_babi] *)
Definition parse_babi (babi_data : bytes) : result (list example) :=
  lines ← data_to_list babi_data;
  st ← parse_lines (Parser [] []) lines;
  mapM (fun '(story, q, answer) => s ← flatten story; Ok (s, q, answer))
       (data st).

(** A question line: there is a tab in the text after the index. *)
Definition is_question (line : ustring) : bool :=
  match split_once SPACE line with
  | Some (_, text) => existsb (N.eqb TAB) text
  | None => false
  end.

(** The text of a line, after its index. *)
Definition text_of (line : ustring) : ustring :=
  match split_once SPACE line with
  | Some (_, text) => text
  | None => line
  end.

(** The query and the answer a question line holds. *)
Definition question_of (line : ustring) : option (list ustring * ustring) :=
  match split_once SPACE line with
  | Some (_, text) =>
      match split_char TAB text with
      | [q; a; _] => Some (tokenize q, a)
      | _ => None
      end
  | None => None
  end.

(** The attributes [compute_statistics] sets. *)
Record statistics : Type := Statistics {
  vocab_size : nat;
  word_idx : gmap ustring nat;
  story_maxlen : nat;
  query_maxlen : nat
}.

Definition words_of (ex : example) : list ustring :=
  let '(s, q, a) := ex in s ++ q ++ [a].

(** [w] is a token of the data: a word of some story or query, or an
    answer. *)
Definition occurs (w : ustring) (all_data : list example) : Prop :=
  ∃ s q a, (s, q, a) ∈ all_data ∧ (w ∈ s ∨ w ∈ q ∨ w = a).

(** [BABI.compute_statistics].  [set_iter] is the order in which the
    interpreter iterates over a set. *)
Definition compute_statistics (set_iter : gset ustring → list ustring)
    (train_parsed test_parsed : list example) : result statistics :=
  let all_data := train_parsed ++ test_parsed in
  words ← reduce (fun x y => x ∪ y)
                 (map (fun ex => list_to_set (words_of ex)) all_data);
  let vocab := sorted (set_iter words) in
  let vocab_size := (length vocab + 1)%nat in
  let word_idx := dict (map (fun '(i, c) => (c, (i + 1)%nat)) (enumerate vocab)) in
  story_maxlen ← max (map (fun '(s, _, _) => length s) all_data);
  query_maxlen ← max (map (fun '(_, q, _) => length q) all_data);
  Ok (Statistics vocab_size word_idx story_maxlen query_maxlen).

(** [self.word_idx[w]] *)
Definition getitem (st : statistics) (w : ustring) : result nat :=
  match word_idx st !! w with
  | Some i => Ok i
  | None => Raise KeyError
  end.

(** [BABI.words_to_vector] *)
Definition words_to_vector (st : statistics) (words : list ustring)
    : result (list nat) :=
  mapM (getitem st) words.

(** [BABI.one_hot_vector].  The entries of the array are the floats 0.0
    and 1.0, written [0] and [1]. *)
Definition one_hot_vector (st : statistics) (answer : ustring)
    : result (list Z) :=
  let vector := replicate (vocab_size st) 0%Z in
  i ← getitem st answer;
  if (i <? length vector)%nat then Ok (<[i := 1%Z]> vector)
  else Raise IndexError.

(** [BABI.vectorize_stories].  [Text.pad_sentences] belongs to another
    module of the package and is a parameter here. *)
Definition vectorize_stories {P} (pad_sentences : list (list nat) → nat → P)
    (st : statistics) (data : list example) : result (P * P * list (list Z)) :=
  rows ← mapM (fun '(story, query, answer) =>
                 s ← words_to_vector st story;
                 q ← words_to_vector st query;
                 a ← one_hot_vector st answer;
                 Ok (s, q, a)) data;
  let s := map (fun r => r.1.1) rows in
  let q := map (fun r => r.1.2) rows in
  let a := map (fun r => r.2) rows in
  Ok (pad_sentences s (story_maxlen st), pad_sentences q (query_maxlen st), a).

(** The attributes of a BABI object. *)
Record t (P : Type) : Type := Make {
  train_parsed : list example;
  test_parsed : list example;
  stats : statistics;
  train : P * P * list (list Z);
  test : P * P * list (list Z)
}.
Arguments Make {P} _ _ _ _ _.
Arguments train_parsed {P} _.
Arguments test_parsed {P} _.
Arguments stats {P} _.
Arguments train {P} _.
Arguments test {P} _.

(** [BABI.__init__], from the contents of the two files that [load_babi]
    hands over; [load_babi] and the two [print] statements are left
    out. *)
Definition init {P : Type} (set_iter : gset ustring → list ustring)
    (pad_sentences : list (list nat) → nat → P)
    (train_file test_file : bytes) : result (t P) :=
  train_parsed ← parse_babi train_file;
  test_parsed ← parse_babi test_file;
  st ← compute_statistics set_iter train_parsed test_parsed;
  train ← vectorize_stories pad_sentences st train_parsed;
  test ← vectorize_stories pad_sentences st test_parsed;
  Ok (Make train_parsed test_parsed st train test).

End BABI.

(** ** class QA *)

Module QA.
Import Py.

(** A two-dimensional [ndarray]: its rows, and its second dimension
    ([shape[1]]), which the rows of an empty array do not show. *)
Record ndarray (A : Type) : Type := Ndarray {
  rows : list (list A);
  ncols : nat
}.
Arguments Ndarray {A} rows ncols.
Arguments rows {A} _.
Arguments ncols {A} _.

(** [len(a)] *)
Definition len {A} (a : ndarray A) : nat := length (rows a).

(** [a[start:end, :]] for [0 <= start <= end]; a slice stops at the end of
    the array. *)
Definition slice_rows {A} (a : ndarray A) (start end_ : nat) : ndarray A :=
  Ndarray (take (end_ - start) (drop start (rows a))) (ncols a).

(** [a.T] *)
Definition transpose {A} (a : ndarray A) : ndarray A :=
  Ndarray (foldr (zip_with cons) (replicate (ncols a) []) (rows a))
          (length (rows a)).

(** [a.astype(t)] *)
Definition astype {A F} (cast : A → F) (a : ndarray A) : ndarray F :=
  Ndarray (map (map cast) (rows a)) (ncols a).

(** A rectangular array: every row has [ncols] entries. *)
Definition well_formed {A} (a : ndarray A) : Prop :=
  Forall (fun r => length r = ncols a) (rows a).

(** [a[i, j]] *)
Definition item {A} (a : ndarray A) (i j : nat) : option A :=
  r ← rows a !! i; r !! j.

Section Iterator.
(** Array entries, their [np.float32] casts, and the tensors of the
    backend; [bsz] is [self.be.bsz]. *)
Context {A F T : Type}.
Variable float32 : A → F.
Variable be_array : ndarray F → T.
Variable bsz : nat.

(** The attributes of a QA object.  [batch_index] does not exist before
    the first iteration starts. *)
Record t : Type := Make {
  story : ndarray A;
  query : ndarray A;
  answer : ndarray A;
  ndata : nat;
  nbatches : nat;
  story_length : nat;
  query_length : nat;
  shape : list (nat * nat);
  batch_index : option nat
}.

(** [QA.__init__] *)
Definition init (story query answer : ndarray A) : result t :=
  let ndata := len story in
  if (bsz =? 0)%nat then Raise ZeroDivisionError
  else
    let nbatches := (ndata / bsz)%nat in
    let story_length := ncols story in
    let query_length := ncols query in
    Ok (Make story query answer ndata nbatches story_length query_length
             [(story_length, 1%nat); (query_length, 1%nat)] None).

Definition set_batch_index (self : t) (i : nat) : t :=
  Make (story self) (query self) (answer self) (ndata self) (nbatches self)
       (story_length self) (query_length self) (shape self) (Some i).

(** [QA.reset] *)
Definition reset (self : t) : t := self.

(** One minibatch: [(story_tensor, query_tensor), answer_tensor]. *)
Definition batch : Type := (T * T) * T.

(** The tensor made of the rows [start:end] of one array. *)
Definition tensor_of (a : ndarray A) (start end_ : nat) : T :=
  be_array (astype float32 (transpose (slice_rows a start end_))).

(** Where the generator of [__iter__] stands: not started, stopped at
    its [yield], or returned. *)
Inductive pc : Type := Created | Suspended | Finished.

Inductive outcome : Type :=
  | Yield (b : batch) (self : t)
  | StopIteration (self : t)
  | Fault.

(** The body of the [while] loop up to its [yield], with [batch_index]
    at [i]: the tuple that is yielded. *)
Definition batch_at (self : t) (i : nat) : batch :=
  let start := (i * bsz)%nat in
  let end_ := ((i + 1) * bsz)%nat in
  let story_tensor := tensor_of (story self) start end_ in
  let query_tensor := tensor_of (query self) start end_ in
  let answer_tensor := tensor_of (answer self) start end_ in
  ((story_tensor, query_tensor), answer_tensor).

(** The [while] loop of [__iter__], from its test to the next [yield].
    Reading [batch_index] before it was ever set is an AttributeError. *)
Definition loop (self : t) : outcome :=
  match batch_index self with
  | None => Fault
  | Some i =>
      if (i <? nbatches self)%nat
      then Yield (batch_at self i) (set_batch_index self (i + 1))
      else StopIteration self
  end.

(** [next(g)] on the generator [g = self.__iter__()]. *)
Definition next (g : pc) (self : t) : outcome :=
  match g with
  | Created => loop (set_batch_index self 0)
  | Suspended => loop self
  | Finished => StopIteration self
  end.

(** [for b in self: ...], collecting the batches: [next] until the
    generator returns, at most [fuel] times; [None] when the fuel runs out
    first or the generator faults. *)
Fixpoint drain (fuel : nat) (g : pc) (self : t) : option (list batch * t) :=
  match fuel with
  | O => None
  | S fuel' =>
      match next g self with
      | Yield b self' =>
          '(bs, self'') ← drain fuel' Suspended self'; Some (b :: bs, self'')
      | StopIteration self' => Some ([], self')
      | Fault => None
      end
  end.

(** [list(self)]: the generator is created and run to its end; the loop
    counts up to [nbatches], so [nbatches + 1] calls of [next] are
    enough. *)
Definition iterate (self : t) : option (list batch * t) :=
  drain (S (nbatches self)) Created self.

End Iterator.

Arguments story {A} _.
Arguments query {A} _.
Arguments answer {A} _.
Arguments ndata {A} _.
Arguments nbatches {A} _.
Arguments batch_index {A} _.

End QA.

(** ** Data for the examples *)

Module Sample.
Import Py.

(** Two small splits; the word [hallway] is in the test split only. *)
Definition train_parsed : list BABI.example :=
  [([u "Mary"; u "moved"; u "to"; u "the"; u "bathroom"; u "."],
    [u "Where"; u "is"; u "Mary"; u "?"], u "bathroom")].

Definition test_parsed : list BABI.example :=
  [([u "John"; u "moved"; u "to"; u "the"; u "hallway"; u "."],
    [u "Where"; u "is"; u "John"; u "?"], u "hallway")].

(** The other way round through a set. *)
Definition backwards (X : gset ustring) : list ustring := reverse (elements X).

(** Ten examples: stories of two words, queries of one, answers over a
    vocabulary of three. *)
Definition story10 : QA.ndarray nat :=
  QA.Ndarray (map (fun i => [i; (i + 1)%nat]) (seq 0 10)) 2.
Definition query10 : QA.ndarray nat :=
  QA.Ndarray (map (fun i => [i]) (seq 0 10)) 1.
Definition answer10 : QA.ndarray nat :=
  QA.Ndarray (map (fun i => [0; 1; 0]%nat) (seq 0 10)) 3.

End Sample.

(** * Properties *)

Open Scope nat_scope.

(** ** The [result] monad *)

Section Result.
Import Py.
Context {A B : Type}.
Implicit Types (f : A → result B) (l : list A) (k : list B).

Lemma bind_Ok f (v : A) : (Ok v ≫= f) = f v.
Proof. reflexivity. Qed.

Lemma mapM_nil f : mapM f [] = Ok [].
Proof. reflexivity. Qed.

Lemma mapM_cons f x l :
  mapM f (x :: l) = y ← f x; k ← mapM f l; Ok (y :: k).
Proof. reflexivity. Qed.

Lemma mapM_Ok f l k :
  mapM f l = Ok k ↔ Forall2 (fun x y => f x = Ok y) l k.
Proof.
  split.
  - revert k. induction l as [|x l IH]; intros k Hk.
    + injection Hk as <-. constructor.
    + rewrite mapM_cons in Hk. destruct (f x) as [y|e] eqn:Hx; [|discriminate].
      cbn in Hk. destruct (mapM f l) as [k'|e]; [|discriminate].
      injection Hk as <-. constructor; auto.
  - induction 1 as [|x y l k Hx _ IH]; [reflexivity|].
    rewrite mapM_cons, Hx. cbn. rewrite IH. reflexivity.
Qed.

Lemma mapM_Raise f l e :
  mapM f l = Raise e → ∃ x, x ∈ l ∧ f x = Raise e.
Proof.
  induction l as [|x l IH]; [discriminate|].
  rewrite mapM_cons. destruct (f x) as [y|e'] eqn:Hx; cbn.
  - destruct (mapM f l) as [k|e'']; [discriminate|].
    intros [= ->]. destruct IH as (x' & ? & ?); [reflexivity|].
    exists x'. split; [by right|done].
  - intros [= ->]. exists x. split; [by left|done].
Qed.

Lemma mapM_total f l :
  (∀ x, x ∈ l → ∃ y, f x = Ok y) → ∃ k, mapM f l = Ok k.
Proof.
  intros Hf. destruct (mapM f l) as [k|e] eqn:Hm; [by exists k|].
  apply mapM_Raise in Hm as (x & Hx & He).
  destruct (Hf x Hx) as [y Hy]. congruence.
Qed.
End Result.

(** ** The order on [unicode] strings *)

Section Order.
Import Py.

Local Ltac cmp x y :=
  destruct (N.ltb_spec x y); destruct (N.ltb_spec y x); try lia.

Lemma ustring_ltb_irrefl a : ustring_ltb a a = false.
Proof. induction a as [|x a IH]; simpl; [done|]. by rewrite N.ltb_irrefl. Qed.

Lemma ustring_ltb_asym a b : ustring_ltb a b = true → ustring_ltb b a = false.
Proof.
  revert b. induction a as [|x a IH]; intros [|y b]; simpl; try done.
  cmp x y; auto.
Qed.

Lemma ustring_ltb_trans a b c :
  ustring_ltb a b = true → ustring_ltb b c = true → ustring_ltb a c = true.
Proof.
  revert b c. induction a as [|x a IH]; intros [|y b] [|z c]; simpl; try done.
  cmp x y; cmp y z; cmp x z; try done. apply IH.
Qed.

Lemma ustring_ltb_connex a b :
  ustring_ltb a b = false → ustring_ltb b a = false → a = b.
Proof.
  revert b. induction a as [|x a IH]; intros [|y b]; simpl; try done.
  cmp x y; try done. intros. f_equal; [lia|auto].
Qed.

#[global] Instance ustring_le_total : Total ustring_le.
Proof.
  intros a b. unfold ustring_le.
  destruct (ustring_ltb b a) eqn:E; [right|by left].
  by apply ustring_ltb_asym.
Qed.

#[global] Instance ustring_le_antisymm : AntiSymm (=) ustring_le.
Proof. intros a b ? ?. by apply ustring_ltb_connex. Qed.

#[global] Instance ustring_le_trans : Transitive ustring_le.
Proof.
  intros a b c Hab Hbc. unfold ustring_le in *.
  destruct (ustring_ltb c a) eqn:Hca; [|done].
  destruct (ustring_ltb a b) eqn:Hlt.
  - by rewrite (ustring_ltb_trans c a b) in Hbc.
  - assert (a = b) as -> by by apply ustring_ltb_connex. congruence.
Qed.

Lemma ustring_le_lt a b : ustring_le a b → a ≠ b → ustring_lt a b.
Proof.
  unfold ustring_le, ustring_lt. intros Hle Hne.
  destruct (ustring_ltb a b) eqn:E; [done|].
  destruct Hne. by apply ustring_ltb_connex.
Qed.

Lemma ustring_lt_le a b : ustring_lt a b → ustring_le a b.
Proof. apply ustring_ltb_asym. Qed.

Lemma ustring_lt_ne a b : ustring_lt a b → a ≠ b.
Proof. intros H ->. red in H. by rewrite ustring_ltb_irrefl in H. Qed.

(** [sorted] returns its argument rearranged, in order. *)
Lemma sorted_Permutation l : sorted l ≡ₚ l.
Proof. apply merge_sort_Permutation. Qed.

Lemma sorted_Sorted l : Sorted ustring_le (sorted l).
Proof. apply Sorted_merge_sort, _. Qed.

(** The result of [sorted] does not depend on the order of its input. *)
Lemma sorted_Permutation_eq l1 l2 : l1 ≡ₚ l2 → sorted l1 = sorted l2.
Proof.
  intros Hp. apply (Sorted_unique ustring_le); try apply sorted_Sorted.
  by rewrite !sorted_Permutation.
Qed.

(** Without repetition, the order is strict. *)
Lemma Sorted_le_NoDup_lt l :
  Sorted ustring_le l → NoDup l → StronglySorted ustring_lt l.
Proof.
  intros Hs%(Sorted_StronglySorted ustring_le) Hnd.
  induction Hs as [|x l Hs IH Hx]; [constructor|].
  apply NoDup_cons in Hnd as [Hnotin Hnd]. constructor; [auto|].
  rewrite Forall_forall in Hx |- *. intros y Hy.
  apply ustring_le_lt; [auto|]. intros ->. auto.
Qed.

Lemma StronglySorted_lt_NoDup l : StronglySorted ustring_lt l → NoDup l.
Proof.
  induction 1 as [|x l _ IH Hx]; constructor; [|done].
  intros Hin. rewrite Forall_forall in Hx.
  exact (ustring_lt_ne x x (Hx x Hin) eq_refl).
Qed.

Lemma StronglySorted_lt_le l :
  StronglySorted ustring_lt l → Sorted ustring_le l.
Proof.
  intros H. apply StronglySorted_Sorted.
  induction H as [|x l _ IH Hx]; constructor; [done|].
  eapply Forall_impl; [exact Hx|]. intros y. apply ustring_lt_le.
Qed.
End Order.

(** ** The text parser *)

Section Parser.
Import Py BABI.

Lemma fold_left_app_concat {A} (rest : list (list A)) (x : list A) :
  fold_left (fun x y => x ++ y) rest x = x ++ concat rest.
Proof.
  revert x. induction rest as [|y rest IH]; intros x; simpl.
  - by rewrite app_nil_r.
  - by rewrite IH, app_assoc.
Qed.

Lemma length_concat_sum {A} (data : list (list A)) :
  length (concat data) = sum_list (map length data).
Proof.
  induction data as [|x data IH]; simpl; [done|].
  by rewrite length_app, IH.
Qed.

Lemma flatten_nil {A} : flatten (@nil (list A)) = Raise TypeError.
Proof. reflexivity. Qed.

(** C8.  On a non-empty list of sentences [flatten] returns; what it
    returns is the tokens of the sentences one after the other, in order,
    and as many tokens as the sentences have together. *)
Theorem flatten_concat {A} (data : list (list A)) :
  data ≠ [] →
  ∃ out, flatten data = Ok out
         ∧ out = concat data
         ∧ length out = sum_list (map length data).
Proof.
  destruct data as [|x rest]; [done|]. intros _.
  exists (concat (x :: rest)). split; [|split].
  - unfold flatten, reduce. by rewrite fold_left_app_concat.
  - done.
  - apply length_concat_sum.
Qed.

Lemma flatten_concat_witness :
  ∃ out, flatten [[u "Mary"; u "moved"]; [u "to"; u "the"; u "bathroom"]] = Ok out
         ∧ out = concat [[u "Mary"; u "moved"]; [u "to"; u "the"; u "bathroom"]]
         ∧ length out
           = sum_list (map length [[u "Mary"; u "moved"]; [u "to"; u "the"; u "bathroom"]]).
Proof. apply flatten_concat. discriminate. Defined.

(** [split] and the last piece. *)
Lemma split_char_not_nil sep s : split_char sep s ≠ [].
Proof.
  destruct s as [|c s]; simpl; [done|].
  destruct (c =? sep)%N; [done|]. by destruct (split_char sep s).
Qed.

Lemma split_char_terminated sep body :
  split_char sep (body ++ [sep]) = split_char sep body ++ [[]].
Proof.
  induction body as [|c body IH]; simpl.
  - by rewrite N.eqb_refl.
  - destruct (c =? sep)%N; [by rewrite IH|].
    rewrite IH. pose proof (split_char_not_nil sep body).
    by destruct (split_char sep body).
Qed.

Lemma drop_last_snoc {A} (l : list A) x : drop_last (l ++ [x]) = l.
Proof. apply removelast_last. Qed.

(** X1.  On text whose last line is closed by a newline, [data_to_list]
    keeps every line: the pieces between the newlines, decoded and
    stripped, in order, as long as each is valid UTF-8. *)
Lemma data_to_list_terminated body :
  Forall (fun line => ∃ ul, utf8_decode line = Ok ul) (split_char LF body) →
  ∃ out, data_to_list (body ++ [LF]) = Ok out
         ∧ Forall2 (fun line o => ∃ ul, utf8_decode line = Ok ul ∧ o = strip ul)
                   (split_char LF body) out.
Proof.
  intros Hdec. unfold data_to_list.
  rewrite split_char_terminated, drop_last_snoc.
  destruct (mapM_total (fun line => strip <$> utf8_decode line)
              (split_char LF body)) as [out Hout].
  - intros line Hin. rewrite Forall_forall in Hdec.
    destruct (Hdec line Hin) as [ul Hul]. exists (strip ul). by rewrite Hul.
  - exists out. split; [done|]. apply mapM_Ok in Hout.
    eapply Forall2_impl; [exact Hout|]. intros line o Ho. cbn in Ho.
    destruct (utf8_decode line) as [ul|]; [|done].
    exists ul. split; [done|]. cbn in Ho. congruence.
Qed.

(** A line that cannot be decoded makes [data_to_list] raise. *)
Example data_to_list_bad_utf8 :
  data_to_list [255%N; LF] = Raise UnicodeDecodeError.
Proof. reflexivity. Qed.

(** C7.  [data_to_list] drops the last piece of the split whatever it
    holds: on ["1 a\n2 b"] the pieces are ["1 a"] and ["2 b"], and the
    list returned has the first only. *)
Theorem data_to_list_loses_unterminated_line :
  split_char LF (bytes_of_string ("1 a" ++ nl ++ "2 b")) = [u "1 a"; u "2 b"]
  ∧ data_to_list (bytes_of_string ("1 a" ++ nl ++ "2 b")) = Ok [u "1 a"].
Proof. split; reflexivity. Qed.

(** [tokenize] on the two sentences of the scenario. *)
Example tokenize_statement :
  tokenize (u "Mary moved to the bathroom.")
  = [u "Mary"; u "moved"; u "to"; u "the"; u "bathroom"; u "."].
Proof. reflexivity. Qed.

Example tokenize_question :
  tokenize (u "Where is Mary?") = [u "Where"; u "is"; u "Mary"; u "?"].
Proof. reflexivity. Qed.

(** With a newline after the question, the scenario parses to its one
    example. *)
Example parse_babi_scenario_terminated :
  parse_babi (bytes_of_string
    ("1 Mary moved to the bathroom." ++ nl
     ++ "2 Where is Mary?" ++ tab ++ "bathroom" ++ tab ++ "1" ++ nl))
  = Ok [(tokenize (u "Mary moved to the bathroom."),
         [u "Where"; u "is"; u "Mary"; u "?"],
         u "bathroom")].
Proof. vm_compute. reflexivity. Qed.

(** C4.  On the scenario as written, with no newline after the question,
    the question is the last piece of the split, [data_to_list] drops it,
    and [parse_babi] returns no example at all. *)
Theorem parse_babi_scenario_unterminated :
  data_to_list (bytes_of_string
    ("1 Mary moved to the bathroom." ++ nl
     ++ "2 Where is Mary?" ++ tab ++ "bathroom" ++ tab ++ "1"))
  = Ok [u "1 Mary moved to the bathroom."]
  ∧ parse_babi (bytes_of_string
    ("1 Mary moved to the bathroom." ++ nl
     ++ "2 Where is Mary?" ++ tab ++ "bathroom" ++ tab ++ "1"))
  = Ok [].
Proof. split; vm_compute; reflexivity. Qed.

(** A question on a line numbered 1 is recorded with an empty story. *)
Lemma parse_line_leading_question st line nid rest q a supporting :
  split_once SPACE line = Some (nid, rest) →
  int nid = Ok 1%Z →
  split_char TAB rest = [q; a; supporting] →
  parse_line st line
  = Ok (Parser (data st ++ [([], tokenize q, a)]) [Placeholder]).
Proof.
  intros Hsp Hint Htab. unfold parse_line. rewrite Hsp, Hint. cbn.
  assert (existsb (N.eqb TAB) rest = true) as ->; [|by rewrite Htab].
  clear -Htab. revert q Htab. induction rest as [|c rest IH]; intros q; [done|].
  cbn [existsb split_char]. rewrite (N.eqb_sym TAB c).
  destruct (c =? TAB)%N; [done|].
  destruct (split_char TAB rest) as [|p ps] eqn:E; [done|].
  intros [= <- ->]. by apply (IH p).
Qed.

(** An example recorded with an empty story makes the last step of
    [parse_babi] raise. *)
Lemma flatten_examples_raise
    (data : list (list (list ustring) * list ustring * ustring)) q a :
  ([], q, a) ∈ data →
  mapM (fun '(story, q, answer) => s ← flatten story; Ok (s, q, answer)) data
  = Raise TypeError.
Proof.
  intros Hin.
  destruct (mapM _ data) as [k|e] eqn:Hm.
  - apply mapM_Ok in Hm. apply list_elem_of_lookup in Hin as [i Hi].
    destruct (Forall2_lookup_l _ _ _ _ _ Hm Hi) as (y & _ & Hy). done.
  - apply mapM_Raise in Hm as ([[story q'] a'] & _ & Hx).
    destruct story as [|s0 story]; cbn in Hx; congruence.
Qed.

(** C10.  A well-formed input on which [parse_babi] raises: the question
    is the first line of its story, so it is recorded with the empty
    story, and [flatten], a [reduce] without initial value, raises on it. *)
Theorem parse_babi_raises_on_leading_question :
  ∃ (babi_data : bytes) (lines : list ustring) (st : parser)
    (q : list ustring) (a : ustring),
    babi_data = bytes_of_string
                  ("1 Where is Mary?" ++ tab ++ "bathroom" ++ tab ++ "1" ++ nl)
    ∧ data_to_list babi_data = Ok lines
    ∧ parse_lines (Parser [] []) lines = Ok st
    ∧ data st = [([], q, a)]
    ∧ flatten (@nil (list ustring)) = Raise TypeError
    ∧ parse_babi babi_data = Raise TypeError.
Proof.
  exists (bytes_of_string
            ("1 Where is Mary?" ++ tab ++ "bathroom" ++ tab ++ "1" ++ nl)),
         [bytes_of_string ("1 Where is Mary?" ++ tab ++ "bathroom" ++ tab ++ "1")],
         (Parser [([], tokenize (u "Where is Mary?"), u "bathroom")]
                 [Placeholder]),
         (tokenize (u "Where is Mary?")), (u "bathroom").
  repeat split; vm_compute; reflexivity.
Qed.
End Parser.

(** ** Vocabulary and statistics *)

Section Dict.
Import Py BABI.

Lemma fold_left_union (rest : list (gset ustring)) (X : gset ustring) :
  fold_left (fun x y => x ∪ y) rest X = X ∪ ⋃ rest.
Proof.
  revert X. induction rest as [|Y rest IH]; intros X; simpl.
  - by rewrite (right_id_L ∅ (∪)).
  - by rewrite IH, (assoc_L (∪)).
Qed.

Lemma reduce_union (sets : list (gset ustring)) :
  sets ≠ [] → reduce (fun x y => x ∪ y) sets = Ok (⋃ sets).
Proof.
  destruct sets as [|X rest]; [done|]. intros _.
  unfold reduce. by rewrite fold_left_union.
Qed.

Lemma elem_of_words (all_data : list example) w :
  w ∈ ⋃ (map (fun ex => list_to_set (words_of ex) : gset ustring) all_data)
  ↔ occurs w all_data.
Proof.
  rewrite elem_of_union_list. unfold occurs. split.
  - intros (X & HX & Hw). apply list_elem_of_fmap in HX as ([[s q] a] & -> & Hex).
    exists s, q, a. split; [done|].
    apply elem_of_list_to_set in Hw. cbn in Hw.
    rewrite !elem_of_app, list_elem_of_singleton in Hw. tauto.
  - intros (s & q & a & Hex & Hw).
    exists (list_to_set (words_of (s, q, a))). split.
    + apply list_elem_of_fmap. by exists (s, q, a).
    + apply elem_of_list_to_set. cbn.
      rewrite !elem_of_app, list_elem_of_singleton. tauto.
Qed.

Lemma fold_left_max_ge rest x :
  x ≤ fold_left Nat.max rest x
  ∧ Forall (fun y => y ≤ fold_left Nat.max rest x) rest.
Proof.
  revert x. induction rest as [|y rest IH]; intros x; simpl; [by split|].
  destruct (IH (Nat.max x y)) as [H1 H2]. split; [lia|].
  constructor; [lia|done].
Qed.

Lemma rev_reverse {A} (l : list A) : rev l = reverse l.
Proof. unfold reverse. apply rev_alt. Qed.

(** [dict] on pairs with distinct keys. *)
Lemma dict_list_to_map {V} (pairs : list (ustring * V)) :
  dict pairs = list_to_map (rev pairs).
Proof.
  unfold dict, list_to_map.
  by rewrite <- (fold_left_rev_right (fun kv m => <[kv.1:=kv.2]> m)).
Qed.

Lemma dict_lookup {V} (pairs : list (ustring * V)) k v :
  NoDup pairs.*1 → dict pairs !! k = Some v ↔ (k, v) ∈ pairs.
Proof.
  intros Hnd. rewrite dict_list_to_map, <- elem_of_list_to_map.
  - by rewrite rev_reverse, elem_of_reverse.
  - by rewrite rev_reverse, fmap_reverse, reverse_Permutation.
Qed.

(** The pairs [(c, i + 1)] for [i, c] in [enumerate(vocab)]. *)
Lemma enumerate_from (vocab : list ustring) k :
  map (fun '(i, c) => (c, (i + 1)%nat)) (zip (seq k (length vocab)) vocab)
  = imap (fun i c => (c, (k + i + 1)%nat)) vocab.
Proof.
  revert k. induction vocab as [|c vocab IH]; intros k; simpl; [done|].
  rewrite Nat.add_0_r. f_equal. rewrite IH. apply imap_ext.
  intros i x _. simpl. f_equal. lia.
Qed.

Lemma index_pairs_keys (vocab : list ustring) :
  (map (fun '(i, c) => (c, (i + 1)%nat)) (enumerate vocab)).*1 = vocab.
Proof.
  unfold enumerate. rewrite enumerate_from, fmap_imap.
  rewrite <- (list_fmap_id vocab) at 2. rewrite <- imap_const.
  by apply imap_ext.
Qed.

Lemma elem_of_index_pairs (vocab : list ustring) w i :
  (w, i) ∈ map (fun '(i, c) => (c, (i + 1)%nat)) (enumerate vocab)
  ↔ ∃ j, i = S j ∧ vocab !! j = Some w.
Proof.
  unfold enumerate. rewrite enumerate_from, elem_of_lookup_imap. split.
  - intros (j & c & [= -> ->] & Hj). exists j. split; [lia|done].
  - intros (j & -> & Hj). exists j, w. split; [f_equal; lia|done].
Qed.

Lemma word_idx_lookup (vocab : list ustring) w i :
  NoDup vocab →
  dict (map (fun '(i, c) => (c, (i + 1)%nat)) (enumerate vocab)) !! w = Some i
  ↔ ∃ j, i = S j ∧ vocab !! j = Some w.
Proof.
  intros Hnd. rewrite dict_lookup; [apply elem_of_index_pairs|].
  by rewrite index_pairs_keys.
Qed.
End Dict.

Section Statistics.
Import Py BABI.

(** The interpreter iterates over a set in an order of its own: some
    enumeration of the elements, each once. *)
Variable set_iter : gset ustring → list ustring.
Hypothesis set_iter_elements : ∀ X, set_iter X ≡ₚ elements X.

Lemma compute_statistics_nil :
  compute_statistics set_iter [] [] = Raise TypeError.
Proof. reflexivity. Qed.

Lemma compute_statistics_Ok_inv train test st :
  compute_statistics set_iter train test = Ok st → train ++ test ≠ [].
Proof.
  intros H Hnil. apply app_eq_nil in Hnil as [-> ->].
  by rewrite compute_statistics_nil in H.
Qed.

(** The sorted vocabulary does not depend on [set_iter]. *)
Lemma vocab_canonical (X : gset ustring) :
  sorted (set_iter X) = sorted (elements X).
Proof. apply sorted_Permutation_eq, set_iter_elements. Qed.

Lemma vocab_props (all_data : list example) :
  let vocab :=
    sorted (elements (⋃ (map (fun ex => list_to_set (words_of ex) : gset ustring)
                             all_data))) in
  StronglySorted ustring_lt vocab ∧ (∀ w, w ∈ vocab ↔ occurs w all_data).
Proof.
  intros vocab. split.
  - apply Sorted_le_NoDup_lt; [apply sorted_Sorted|].
    unfold vocab. rewrite sorted_Permutation. apply NoDup_elements.
  - intros w. unfold vocab.
    by rewrite sorted_Permutation, elem_of_elements, elem_of_words.
Qed.

(** What [compute_statistics] returns on data with at least one example:
    a strictly increasing vocabulary of the tokens of the data, and the
    attributes computed from it. *)
Lemma compute_statistics_spec train test :
  train ++ test ≠ [] →
  ∃ st vocab,
    compute_statistics set_iter train test = Ok st
    ∧ StronglySorted ustring_lt vocab
    ∧ (∀ w, w ∈ vocab ↔ occurs w (train ++ test))
    ∧ vocab_size st = length vocab + 1
    ∧ (∀ w i, word_idx st !! w = Some i ↔ ∃ j, i = S j ∧ vocab !! j = Some w).
Proof.
  intros Hne. destruct (vocab_props (train ++ test)) as [Hsorted Helem].
  set (vocab := sorted (elements _)) in *.
  unfold compute_statistics.
  rewrite reduce_union by (by destruct (train ++ test)).
  cbn. rewrite vocab_canonical. fold vocab.
  destruct (train ++ test) as [|ex rest] eqn:E; [done|].
  eexists _, vocab. cbn. split; [reflexivity|].
  split; [done|]. split; [done|]. split; [done|].
  intros w i. cbn. apply word_idx_lookup.
  by apply StronglySorted_lt_NoDup.
Qed.

(** [story_maxlen] and [query_maxlen] bound every story and every query. *)
Lemma compute_statistics_maxlen train test st :
  compute_statistics set_iter train test = Ok st →
  Forall (fun '(s, q, _) => length s ≤ story_maxlen st ∧ length q ≤ query_maxlen st)
         (train ++ test).
Proof.
  unfold compute_statistics.
  destruct (train ++ test) as [|[[s0 q0] a0] rest]; [done|].
  rewrite reduce_union by done. rewrite bind_Ok. cbn. intros [= <-]. cbn.
  destruct (fold_left_max_ge (map (fun '(s, _, _) => length s) rest) (length s0))
    as [Hs0 Hs].
  destruct (fold_left_max_ge (map (fun '(_, q, _) => length q) rest) (length q0))
    as [Hq0 Hq].
  constructor; [done|].
  rewrite Forall_forall in Hs, Hq. apply Forall_forall. intros [[s q] a] Hin.
  split.
  - apply Hs, list_elem_of_fmap. by exists (s, q, a).
  - apply Hq, list_elem_of_fmap. by exists (s, q, a).
Qed.

(** The indices of [word_idx] lie between 1 and [vocab_size - 1]. *)
Lemma word_idx_range train test st w i :
  compute_statistics set_iter train test = Ok st →
  word_idx st !! w = Some i → 1 ≤ i < vocab_size st.
Proof.
  intros Hst Hi.
  pose proof (compute_statistics_Ok_inv _ _ _ Hst) as Hne.
  destruct (compute_statistics_spec train test Hne)
    as (st' & vocab & Hst' & _ & _ & Hsize & Hidx).
  assert (st' = st) as -> by congruence.
  apply Hidx in Hi as (j & -> & Hj%lookup_lt_Some). lia.
Qed.

(** Every token of the data has an index. *)
Lemma word_idx_defined train test st w :
  compute_statistics set_iter train test = Ok st →
  occurs w (train ++ test) → ∃ i, word_idx st !! w = Some i.
Proof.
  intros Hst Hw.
  pose proof (compute_statistics_Ok_inv _ _ _ Hst) as Hne.
  destruct (compute_statistics_spec train test Hne)
    as (st' & vocab & Hst' & _ & Helem & _ & Hidx).
  assert (st' = st) as -> by congruence.
  apply Helem, list_elem_of_lookup in Hw as [j Hj].
  exists (S j). apply Hidx. eauto.
Qed.

(** C1, as the code has it.  On data with at least one example,
    [compute_statistics] returns; [vocab_size] is the number of distinct
    tokens of the stories, queries and answers of both splits plus one;
    [word_idx] is defined on these tokens only, gives different tokens
    different indices, and its indices are exactly 1, ..., [vocab_size - 1]:
    index 0 goes to no token. *)
Theorem vocabulary_size_and_indices train test :
  train ++ test ≠ [] →
  ∃ st, compute_statistics set_iter train test = Ok st
    ∧ (∀ toks, NoDup toks → (∀ w, w ∈ toks ↔ occurs w (train ++ test)) →
         vocab_size st = length toks + 1)
    ∧ (∀ w, occurs w (train ++ test) ↔ ∃ i, word_idx st !! w = Some i)
    ∧ (∀ w i, word_idx st !! w = Some i → 1 ≤ i < vocab_size st)
    ∧ (∀ w1 w2 i, word_idx st !! w1 = Some i → word_idx st !! w2 = Some i →
         w1 = w2)
    ∧ (∀ i, 1 ≤ i < vocab_size st → ∃ w, word_idx st !! w = Some i).
Proof.
  intros Hne.
  destruct (compute_statistics_spec train test Hne)
    as (st & vocab & Hst & Hsorted & Helem & Hsize & Hidx).
  pose proof (StronglySorted_lt_NoDup _ Hsorted) as Hnd.
  exists st. split; [done|]. repeat split.
  - intros toks Htoks Hin. rewrite Hsize. f_equal.
    apply Permutation_length, NoDup_Permutation; [done..|].
    intros w. by rewrite Helem, Hin.
  - intros Hw. apply Helem, list_elem_of_lookup in Hw as [j Hj].
    exists (S j). apply Hidx. eauto.
  - intros [i (j & _ & Hj)%Hidx]. apply Helem, list_elem_of_lookup. eauto.
  - apply Hidx in H as (j & -> & _). lia.
  - apply Hidx in H as (j & -> & Hj%lookup_lt_Some). lia.
  - intros w1 w2 i (j1 & -> & H1)%Hidx (j2 & [= <-] & H2)%Hidx. congruence.
  - intros i [Hi1 Hi2]. destruct i as [|j]; [lia|].
    destruct (lookup_lt_is_Some_2 vocab j) as [w Hw]; [lia|].
    exists w. apply Hidx. eauto.
Qed.

(** C2.  After [compute_statistics], for an answer that [word_idx] knows,
    [one_hot_vector] returns a vector of [vocab_size] entries whose entry
    at [word_idx[answer]] is 1 and whose other entries are all 0. *)
Theorem one_hot_vector_spec train test st answer i :
  compute_statistics set_iter train test = Ok st →
  word_idx st !! answer = Some i →
  ∃ v, one_hot_vector st answer = Ok v
       ∧ length v = vocab_size st
       ∧ v !! i = Some 1%Z
       ∧ (∀ j, j < vocab_size st → j ≠ i → v !! j = Some 0%Z)
       ∧ (∀ j, v !! j = Some 1%Z ↔ j = i).
Proof.
  intros Hst Hi.
  destruct (word_idx_range _ _ _ _ _ Hst Hi) as [_ Hlt].
  exists (<[i := 1%Z]> (replicate (vocab_size st) 0%Z)).
  assert (∀ j, j < vocab_size st → j ≠ i →
            <[i := 1%Z]> (replicate (vocab_size st) 0%Z) !! j = Some 0%Z) as H0.
  { intros j Hj Hne. rewrite list_lookup_insert_ne by done.
    by apply lookup_replicate_2. }
  assert (<[i := 1%Z]> (replicate (vocab_size st) 0%Z) !! i = Some 1%Z) as H1.
  { apply list_lookup_insert_eq. by rewrite length_replicate. }
  split; [|split; [|split; [|split]]]; try done.
  - unfold one_hot_vector, getitem. rewrite Hi, bind_Ok, length_replicate.
    by destruct (Nat.ltb_spec i (vocab_size st)); [|lia].
  - by rewrite length_insert, length_replicate.
  - intros j. split; [|by intros ->].
    intros Hj. destruct (decide (j = i)) as [|Hne]; [done|].
    assert (j < vocab_size st) as Hlt'.
    { apply lookup_lt_Some in Hj.
      by rewrite length_insert, length_replicate in Hj. }
    rewrite (H0 j Hlt' Hne) in Hj. discriminate.
Qed.

Lemma getitem_Ok st w i : getitem st w = Ok i ↔ word_idx st !! w = Some i.
Proof. unfold getitem. destruct (word_idx st !! w); split; congruence. Qed.

Lemma getitem_Raise st w e :
  getitem st w = Raise e ↔ word_idx st !! w = None ∧ e = KeyError.
Proof.
  unfold getitem. destruct (word_idx st !! w); split.
  - discriminate.
  - by intros [? _].
  - by intros [= <-].
  - by intros [_ ->].
Qed.

(** [words_to_vector] looks every word up, and raises as soon as one is
    missing. *)
Lemma words_to_vector_Ok st words v :
  words_to_vector st words = Ok v
  ↔ Forall2 (fun w i => word_idx st !! w = Some i) words v.
Proof.
  unfold words_to_vector. rewrite mapM_Ok.
  split; intros H; (eapply Forall2_impl; [exact H|]); intros w i; apply getitem_Ok.
Qed.

Lemma words_to_vector_Raise st words e :
  words_to_vector st words = Raise e
  ↔ e = KeyError ∧ ∃ w, w ∈ words ∧ word_idx st !! w = None.
Proof.
  unfold words_to_vector. split.
  - intros (w & Hw & [Hnone ->]%getitem_Raise)%mapM_Raise. eauto.
  - intros [-> (w & Hw & Hnone)].
    destruct (mapM (getitem st) words) as [v|e'] eqn:Hm.
    + apply mapM_Ok in Hm. apply list_elem_of_lookup in Hw as [n Hn].
      destruct (Forall2_lookup_l _ _ _ _ _ Hm Hn) as (i & _ & Hi%getitem_Ok).
      congruence.
    + by apply mapM_Raise in Hm as (w' & _ & [_ ->]%getitem_Raise).
Qed.

Lemma one_hot_vector_KeyError st answer :
  one_hot_vector st answer = Raise KeyError ↔ word_idx st !! answer = None.
Proof.
  unfold one_hot_vector, getitem.
  destruct (word_idx st !! answer) as [i|]; [|done].
  rewrite bind_Ok. by destruct (i <? _).
Qed.

(** After [compute_statistics] the words of every example of the data
    are in [word_idx]. *)
Lemma example_vectorized train test st s q a :
  compute_statistics set_iter train test = Ok st →
  (s, q, a) ∈ train ++ test →
  ∃ vs vq va,
    words_to_vector st s = Ok vs
    ∧ Forall2 (fun w i => word_idx st !! w = Some i ∧ 1 ≤ i) s vs
    ∧ words_to_vector st q = Ok vq
    ∧ Forall2 (fun w i => word_idx st !! w = Some i ∧ 1 ≤ i) q vq
    ∧ one_hot_vector st a = Ok va.
Proof.
  intros Hst Hin.
  assert (∀ words, (∀ w, w ∈ words → occurs w (train ++ test)) →
            ∃ v, words_to_vector st words = Ok v
                 ∧ Forall2 (fun w i => word_idx st !! w = Some i ∧ 1 ≤ i) words v)
    as Hvec.
  { intros words Hocc.
    destruct (mapM_total (getitem st) words) as [v Hv].
    - intros w Hw. destruct (word_idx_defined _ _ _ w Hst (Hocc w Hw)) as [i Hi].
      exists i. by apply getitem_Ok.
    - exists v. split; [done|]. apply words_to_vector_Ok in Hv.
      eapply Forall2_impl; [exact Hv|]. intros w i Hi. split; [done|].
      by destruct (word_idx_range _ _ _ _ _ Hst Hi). }
  destruct (Hvec s) as (vs & Hvs & Hs).
  { intros w Hw. exists s, q, a. auto. }
  destruct (Hvec q) as (vq & Hvq & Hq).
  { intros w Hw. exists s, q, a. auto. }
  destruct (word_idx_defined _ _ _ a Hst) as [i Hi].
  { exists s, q, a. auto. }
  destruct (word_idx_range _ _ _ _ _ Hst Hi) as [_ Hlt].
  exists vs, vq, (<[i := 1%Z]> (replicate (vocab_size st) 0%Z)).
  repeat (split; [done|]).
  unfold one_hot_vector, getitem. rewrite Hi, bind_Ok, length_replicate.
  by destruct (Nat.ltb_spec i (vocab_size st)); [|lia].
Qed.

(** C5.  A lookup error is raised exactly when a word is missing from
    [word_idx]; and no word of an example of either split, the test split
    included, is missing after [compute_statistics]: its story and its
    query are turned into the indices [word_idx] holds for their words,
    none of them 0, its answer into a one-hot vector, and
    [vectorize_stories] returns on any examples of the two splits. *)
Theorem vectorization_lookup train test :
  (∀ st words,
     words_to_vector st words = Raise KeyError
     ↔ ∃ w, w ∈ words ∧ word_idx st !! w = None)
  ∧ (∀ st answer,
       one_hot_vector st answer = Raise KeyError
       ↔ word_idx st !! answer = None)
  ∧ (∀ s q a, (s, q, a) ∈ train ++ test →
       ∃ st vs vq va,
         compute_statistics set_iter train test = Ok st
         ∧ words_to_vector st s = Ok vs
         ∧ Forall2 (fun w i => word_idx st !! w = Some i ∧ 1 ≤ i) s vs
         ∧ words_to_vector st q = Ok vq
         ∧ Forall2 (fun w i => word_idx st !! w = Some i ∧ 1 ≤ i) q vq
         ∧ one_hot_vector st a = Ok va)
  ∧ (∀ st P (pad_sentences : list (list nat) → nat → P) data,
       compute_statistics set_iter train test = Ok st →
       data ⊆ train ++ test →
       ∃ out, vectorize_stories pad_sentences st data = Ok out).
Proof.
  split; [|split; [|split]].
  - intros st words. rewrite words_to_vector_Raise.
    split; [by intros [_ ?]|by intros ?; split].
  - apply one_hot_vector_KeyError.
  - intros s q a Hin.
    assert (train ++ test ≠ []) as Hne.
    { intros Hnil. rewrite Hnil in Hin. by apply not_elem_of_nil in Hin. }
    destruct (compute_statistics_spec train test Hne)
      as (st & vocab & Hst & _ & _ & _ & _).
    destruct (example_vectorized _ _ _ _ _ _ Hst Hin) as (vs & vq & va & H).
    by exists st, vs, vq, va.
  - intros st P pad_sentences data Hst Hsub. unfold vectorize_stories.
    destruct (mapM_total
      (fun '(story, query, answer) =>
         s ← words_to_vector st story;
         q ← words_to_vector st query;
         a ← one_hot_vector st answer; Ok (s, q, a)) data) as [rows Hrows].
    + intros [[s q] a] Hin.
      destruct (example_vectorized _ _ _ _ _ _ Hst (Hsub _ Hin))
        as (vs & vq & va & -> & _ & -> & _ & ->).
      by eexists.
    + rewrite Hrows. by eexists.
Qed.
End Statistics.

Section Determinism.
Import Py BABI.

(** Two lists in strict order with the same elements are the same list. *)
Lemma strictly_sorted_unique (v1 v2 : list ustring) :
  StronglySorted ustring_lt v1 → StronglySorted ustring_lt v2 →
  (∀ w, w ∈ v1 ↔ w ∈ v2) → v1 = v2.
Proof.
  intros H1 H2 Hel.
  apply (Sorted_unique ustring_le); try by apply StronglySorted_lt_le.
  apply NoDup_Permutation; auto using StronglySorted_lt_NoDup.
Qed.

(** C6.  Whatever the orders in which two runs iterate over the set of
    tokens, they end the same way, with the same [vocab_size], [word_idx],
    [story_maxlen] and [query_maxlen]; and on data with at least one
    example a run returns, and [word_idx] gives the indices 1, 2, ... to
    the tokens in their strict order as strings, which the data alone
    fixes. *)
Theorem compute_statistics_deterministic
    (iter1 iter2 : gset ustring → list ustring) train test :
  (∀ X, iter1 X ≡ₚ elements X) →
  (∀ X, iter2 X ≡ₚ elements X) →
  compute_statistics iter1 train test = compute_statistics iter2 train test
  ∧ (train ++ test ≠ [] →
     ∃ st vocab,
       compute_statistics iter1 train test = Ok st
       ∧ StronglySorted ustring_lt vocab
       ∧ (∀ w, w ∈ vocab ↔ occurs w (train ++ test))
       ∧ (∀ vocab', StronglySorted ustring_lt vocab' →
            (∀ w, w ∈ vocab' ↔ occurs w (train ++ test)) → vocab' = vocab)
       ∧ vocab_size st = length vocab + 1
       ∧ (∀ w i, word_idx st !! w = Some i ↔ ∃ j, i = S j ∧ vocab !! j = Some w)).
Proof.
  intros Hiter1 Hiter2. split.
  - unfold compute_statistics.
    destruct (reduce _ _) as [words|e]; [|done].
    rewrite !bind_Ok.
    by rewrite (vocab_canonical iter1 Hiter1), (vocab_canonical iter2 Hiter2).
  - intros Hne.
    destruct (compute_statistics_spec iter1 Hiter1 train test Hne)
      as (st & vocab & Hst & Hsorted & Helem & Hsize & Hidx).
    exists st, vocab. repeat (split; [done|]). split; [|done].
    intros vocab' Hsorted' Helem'. apply strictly_sorted_unique; [done..|].
    intros w. by rewrite Helem, Helem'.
Qed.

Lemma compute_statistics_deterministic_witness :
  compute_statistics elements Sample.train_parsed Sample.test_parsed
  = compute_statistics Sample.backwards Sample.train_parsed Sample.test_parsed.
Proof.
  apply (compute_statistics_deterministic elements Sample.backwards).
  - intros X. reflexivity.
  - intros X. apply reverse_Permutation.
Defined.

(** C1, the case the claim misses: with no example in either split the
    [reduce] over the sets of tokens has nothing to start from, and
    [compute_statistics] raises before it sets anything. *)
Lemma compute_statistics_empty_raises :
  compute_statistics elements [] [] = Raise TypeError
  ∧ ¬ ∃ st, compute_statistics elements [] [] = Ok st.
Proof. split; [reflexivity|]. intros [st Hst]. discriminate. Qed.

Lemma vocabulary_size_and_indices_witness :
  ∃ st, compute_statistics elements Sample.train_parsed Sample.test_parsed = Ok st
    ∧ (∀ toks, NoDup toks →
         (∀ w, w ∈ toks ↔ occurs w (Sample.train_parsed ++ Sample.test_parsed)) →
         vocab_size st = length toks + 1)
    ∧ (∀ w, occurs w (Sample.train_parsed ++ Sample.test_parsed)
            ↔ ∃ i, word_idx st !! w = Some i)
    ∧ (∀ w i, word_idx st !! w = Some i → 1 ≤ i < vocab_size st)
    ∧ (∀ w1 w2 i, word_idx st !! w1 = Some i → word_idx st !! w2 = Some i →
         w1 = w2)
    ∧ (∀ i, 1 ≤ i < vocab_size st → ∃ w, word_idx st !! w = Some i).
Proof.
  apply (vocabulary_size_and_indices elements).
  - intros X. reflexivity.
  - discriminate.
Defined.

(** The sample: eleven tokens, and the index of the word of the test
    split. *)
Example sample_statistics :
  ∃ st, compute_statistics elements Sample.train_parsed Sample.test_parsed = Ok st
        ∧ vocab_size st = 12
        ∧ word_idx st !! u "." = Some 1
        ∧ word_idx st !! u "hallway" = Some 7
        ∧ word_idx st !! u "to" = Some 11
        ∧ story_maxlen st = 6
        ∧ query_maxlen st = 4.
Proof. eexists. split; [vm_compute; reflexivity|]. repeat split. Qed.

Lemma one_hot_vector_spec_witness :
  ∃ st v,
    compute_statistics elements Sample.train_parsed Sample.test_parsed = Ok st
    ∧ word_idx st !! u "hallway" = Some 7
    ∧ one_hot_vector st (u "hallway") = Ok v
    ∧ length v = vocab_size st
    ∧ v !! 7 = Some 1%Z
    ∧ (∀ j, j < vocab_size st → j ≠ 7 → v !! j = Some 0%Z)
    ∧ (∀ j, v !! j = Some 1%Z ↔ j = 7).
Proof.
  destruct (compute_statistics elements Sample.train_parsed Sample.test_parsed)
    as [st|e] eqn:Hst; [|by vm_compute in Hst].
  assert (word_idx st !! u "hallway" = Some 7) as Hi.
  { revert Hst. vm_compute. by intros [= <-]. }
  destruct (one_hot_vector_spec elements (fun X => reflexivity _)
              Sample.train_parsed Sample.test_parsed st (u "hallway") 7 Hst Hi)
    as (v & Hv).
  by exists st, v.
Defined.

Lemma vectorization_lookup_witness :
  ∃ st vs vq va,
    compute_statistics elements Sample.train_parsed Sample.test_parsed = Ok st
    ∧ words_to_vector st
        [u "John"; u "moved"; u "to"; u "the"; u "hallway"; u "."] = Ok vs
    ∧ Forall2 (fun w i => word_idx st !! w = Some i ∧ 1 ≤ i)
        [u "John"; u "moved"; u "to"; u "the"; u "hallway"; u "."] vs
    ∧ words_to_vector st [u "Where"; u "is"; u "John"; u "?"] = Ok vq
    ∧ Forall2 (fun w i => word_idx st !! w = Some i ∧ 1 ≤ i)
        [u "Where"; u "is"; u "John"; u "?"] vq
    ∧ one_hot_vector st (u "hallway") = Ok va.
Proof.
  apply (vectorization_lookup elements (fun X => reflexivity _)
           Sample.train_parsed Sample.test_parsed).
  vm_compute. right. left.
Defined.
End Determinism.

(** ** The minibatch iterator *)

Section QAProps.
Import Py QA.
Context {A F T : Type}.
Variable float32 : A → F.
Variable be_array : ndarray F → T.
Variable bsz : nat.

Local Abbreviation qa := (QA.t (A := A)).
Local Abbreviation batch_at := (QA.batch_at float32 be_array bsz).
Local Abbreviation loop := (QA.loop float32 be_array bsz).
Local Abbreviation next := (QA.next float32 be_array bsz).
Local Abbreviation drain := (QA.drain float32 be_array bsz).
Local Abbreviation iterate := (QA.iterate float32 be_array bsz).
Local Abbreviation tensor_of := (QA.tensor_of float32 be_array).

(** The rows of a slice of width [bsz]. *)
Lemma slice_rows_batch (a : ndarray A) i :
  rows (slice_rows a (i * bsz) ((i + 1) * bsz)) = take bsz (drop (i * bsz) (rows a)).
Proof. unfold slice_rows. cbn. f_equal. lia. Qed.

Lemma slice_rows_full (a : ndarray A) i :
  (i + 1) * bsz ≤ len a →
  length (rows (slice_rows a (i * bsz) ((i + 1) * bsz))) = bsz.
Proof.
  unfold len. intros Hle. rewrite slice_rows_batch, length_take_le; [done|].
  rewrite length_drop. lia.
Qed.

Lemma slices_concat (l : list (list A)) n :
  concat (map (fun i => take bsz (drop (i * bsz) l)) (seq 0 n)) = take (n * bsz) l.
Proof.
  induction n as [|n IH]; [done|].
  rewrite seq_S, map_app, concat_app, IH. cbn. rewrite app_nil_r.
  rewrite take_take_drop. f_equal. lia.
Qed.

(** The cursor does not change what a batch is made of. *)
Lemma batch_at_set_batch_index (self : qa) k i :
  batch_at (set_batch_index self k) i = batch_at self i.
Proof. reflexivity. Qed.

Lemma set_batch_index_twice (self : qa) j k :
  set_batch_index (set_batch_index self j) k = set_batch_index self k.
Proof. reflexivity. Qed.

Lemma set_batch_index_same (self : qa) i :
  batch_index self = Some i → set_batch_index self i = self.
Proof. destruct self. cbn. by intros ->. Qed.

(** A generator that is resumed runs the loop from the cursor to
    [nbatches]. *)
Lemma drain_suspended fuel (self : qa) i :
  batch_index self = Some i →
  i ≤ nbatches self →
  nbatches self - i < fuel →
  drain fuel Suspended self
  = Some (map (batch_at self) (seq i (nbatches self - i)),
          set_batch_index self (nbatches self)).
Proof.
  revert self i. induction fuel as [|fuel IH]; intros self i Hi Hle Hfuel; [lia|].
  cbn [QA.drain QA.next]. unfold QA.loop. rewrite Hi.
  destruct (Nat.ltb_spec i (nbatches self)) as [Hlt|Hge].
  - assert (i + 1 ≤ nbatches self) as H1 by lia.
    assert (nbatches self - (i + 1) < fuel) as H2 by lia.
    rewrite (IH (set_batch_index self (i + 1)) (i + 1) eq_refl H1 H2).
    clear IH. cbn.
    replace (nbatches self - i) with (S (nbatches self - (i + 1))) by lia.
    cbn. by replace (i + 1) with (S i) by lia.
  - assert (i = nbatches self) as -> by lia.
    rewrite Nat.sub_diag. cbn. by rewrite set_batch_index_same.
Qed.

(** A generator that was just created first puts the cursor at 0. *)
Lemma drain_created fuel (self : qa) :
  drain fuel Created self = drain fuel Suspended (set_batch_index self 0).
Proof. by destruct fuel. Qed.

Lemma iterate_spec (self : qa) :
  iterate self
  = Some (map (batch_at self) (seq 0 (nbatches self)),
          set_batch_index self (nbatches self)).
Proof.
  unfold QA.iterate. rewrite drain_created.
  rewrite (drain_suspended _ _ 0); cbn; [|done|lia|lia].
  by rewrite Nat.sub_0_r.
Qed.

(** More fuel than the loop needs changes nothing. *)
Lemma drain_fuel fuel (self : qa) :
  nbatches self < fuel → drain fuel Created self = iterate self.
Proof.
  intros Hfuel. rewrite iterate_spec, drain_created.
  rewrite (drain_suspended _ _ 0); cbn; [|done|lia|lia].
  by rewrite Nat.sub_0_r.
Qed.

Lemma init_Ok (story query answer : ndarray A) (self : qa) :
  init bsz story query answer = Ok self →
  0 < bsz
  ∧ QA.story self = story ∧ QA.query self = query ∧ QA.answer self = answer
  ∧ ndata self = len story
  ∧ nbatches self = len story / bsz
  ∧ batch_index self = None.
Proof.
  unfold init. destruct (Nat.eqb_spec bsz 0) as [|Hne]; [done|].
  intros [= <-]. cbn. repeat split; try done. lia.
Qed.

Lemma slice_rows_eq (a : ndarray A) i :
  slice_rows a (i * bsz) ((i + 1) * bsz)
  = Ndarray (take bsz (drop (i * bsz) (rows a))) (ncols a).
Proof. unfold slice_rows. do 2 f_equal. lia. Qed.

(** C3.  A QA object over [N] examples with batch size [B] yields
    [N / B] minibatches and no more; the one of step [i] is what the
    backend makes of the rows [i * B], ..., [i * B + B - 1] of the story,
    query and answer arrays, transposed and cast; these are [B] rows of
    each array that has [N] rows; and the rows yielded over the whole
    iteration are the first [N - N mod B], so the last [N mod B] are in
    no batch. *)
Theorem iterate_batches (story query answer : ndarray A) (self : qa) :
  init bsz story query answer = Ok self →
  ∃ batches self',
    iterate self = Some (batches, self')
    ∧ length batches = len story / bsz
    ∧ (∀ i, i < len story / bsz →
         batches !! i
         = Some
             ((be_array (astype float32 (transpose
                 (Ndarray (take bsz (drop (i * bsz) (rows story))) (ncols story)))),
               be_array (astype float32 (transpose
                 (Ndarray (take bsz (drop (i * bsz) (rows query))) (ncols query))))),
              be_array (astype float32 (transpose
                (Ndarray (take bsz (drop (i * bsz) (rows answer))) (ncols answer))))))
    ∧ (∀ i, len story / bsz ≤ i → batches !! i = None)
    ∧ (∀ (a : ndarray A) i, len a = len story → i < len story / bsz →
         length (take bsz (drop (i * bsz) (rows a))) = bsz
         ∧ ∀ k, k < bsz →
             take bsz (drop (i * bsz) (rows a)) !! k = rows a !! (i * bsz + k))
    ∧ (∀ (a : ndarray A), len a = len story →
         concat (map (fun i => take bsz (drop (i * bsz) (rows a)))
                     (seq 0 (len story / bsz)))
         = take (len story - len story mod bsz) (rows a)).
Proof.
  intros (Hpos & <- & <- & <- & _ & Hnb & _)%init_Ok.
  set (N := len (QA.story self)) in *.
  eexists _, _. split; [apply iterate_spec|]. rewrite Hnb.
  assert (N / bsz * bsz ≤ N) as Hle by (rewrite Nat.mul_comm; apply Nat.Div0.mul_div_le).
  split; [|split; [|split; [|split]]].
  - by rewrite length_map, length_seq.
  - intros i Hi. rewrite list_lookup_fmap, lookup_seq_lt by done.
    cbn [fmap option_fmap option_map Nat.add]. unfold QA.batch_at, QA.tensor_of.
    by rewrite !slice_rows_eq.
  - intros i Hi. rewrite list_lookup_fmap, lookup_seq_ge; done.
  - intros a i Ha Hi. split.
    + rewrite <- slice_rows_batch. apply slice_rows_full. rewrite Ha. fold N. nia.
    + intros k Hk. rewrite lookup_take_lt by done. by rewrite lookup_drop.
  - intros a Ha. rewrite slices_concat. f_equal.
    pose proof (Nat.div_mod_eq N bsz). lia.
Qed.

(** C9.  A generator of [__iter__] starts by putting the cursor at 0,
    wherever an earlier iteration left it.  So a second iteration over the
    same object, after [reset] or not, after a whole first iteration or a
    part of one, yields the same [N / B] batches again, from the first
    example on; [reset] itself changes nothing and leaves the cursor where
    the first iteration stopped. *)
Theorem iterate_twice (story query answer : ndarray A) (self : qa) :
  init bsz story query answer = Ok self →
  ∃ batches self',
    iterate self = Some (batches, self')
    ∧ length batches = len story / bsz
    ∧ (∀ s : qa, next Created s = next Suspended (set_batch_index s 0))
    ∧ (0 < len story / bsz →
       batches !! 0
       = Some ((tensor_of story 0 bsz, tensor_of query 0 bsz),
               tensor_of answer 0 bsz))
    ∧ reset self' = self'
    ∧ batch_index (reset self') = Some (len story / bsz)
    ∧ iterate (reset self') = Some (batches, self')
    ∧ (∀ k, iterate (set_batch_index self k) = Some (batches, self')).
Proof.
  intros (Hpos & <- & <- & <- & _ & Hnb & _)%init_Ok.
  exists (map (batch_at self) (seq 0 (nbatches self))),
         (set_batch_index self (nbatches self)).
  rewrite <- Hnb. split; [apply iterate_spec|].
  split; [by rewrite length_map, length_seq|].
  split; [done|].
  split.
  { intros Hlt. rewrite list_lookup_fmap, lookup_seq_lt by done.
    unfold QA.batch_at. cbn [fmap option_fmap option_map Nat.add Nat.mul].
    by rewrite Nat.add_0_r. }
  split; [done|]. split; [done|].
  split; [|intros k]; by rewrite iterate_spec.
Qed.
End QAProps.

Section QAExamples.
Import Py QA.

(** Ten examples in batches of three: three batches, of the rows 0-2, 3-5
    and 6-8, each transposed; the tenth example is in none. *)
Example iterate_ten_by_three :
  ∃ self self',
    init 3 Sample.story10 Sample.query10 Sample.answer10 = Ok self
    ∧ nbatches self = 3
    ∧ iterate id id 3 self
      = Some ([((Ndarray [[0; 1; 2]; [1; 2; 3]] 3, Ndarray [[0; 1; 2]] 3),
                Ndarray [[0; 0; 0]; [1; 1; 1]; [0; 0; 0]] 3);
               ((Ndarray [[3; 4; 5]; [4; 5; 6]] 3, Ndarray [[3; 4; 5]] 3),
                Ndarray [[0; 0; 0]; [1; 1; 1]; [0; 0; 0]] 3);
               ((Ndarray [[6; 7; 8]; [7; 8; 9]] 3, Ndarray [[6; 7; 8]] 3),
                Ndarray [[0; 0; 0]; [1; 1; 1]; [0; 0; 0]] 3)],
              self').
Proof. eexists _, _. repeat split. Qed.

(** A batch size of zero stops the constructor. *)
Example init_zero_batch_size :
  init 0 Sample.story10 Sample.query10 Sample.answer10 = Raise ZeroDivisionError.
Proof. reflexivity. Qed.

Lemma iterate_batches_witness :
  ∃ self batches self',
    init 3 Sample.story10 Sample.query10 Sample.answer10 = Ok self
    ∧ iterate id id 3 self = Some (batches, self')
    ∧ length batches = 3
    ∧ batches !! 2
      = Some ((Ndarray [[6; 7; 8]; [7; 8; 9]] 3, Ndarray [[6; 7; 8]] 3),
              Ndarray [[0; 0; 0]; [1; 1; 1]; [0; 0; 0]] 3)
    ∧ batches !! 3 = None.
Proof.
  destruct (iterate_batches id id 3 Sample.story10 Sample.query10 Sample.answer10
              (Make Sample.story10 Sample.query10 Sample.answer10
                    10 3 2 1 [(2, 1); (1, 1)] None) eq_refl)
    as (batches & self' & Hiter & Hlen & Hget & Hnone & _).
  eexists _, batches, self'. split; [reflexivity|].
  split; [exact Hiter|]. split; [exact Hlen|]. split.
  - apply (Hget 2). vm_compute. lia.
  - apply Hnone. vm_compute. lia.
Defined.

Lemma iterate_twice_witness :
  ∃ self batches self',
    init 3 Sample.story10 Sample.query10 Sample.answer10 = Ok self
    ∧ iterate id id 3 self = Some (batches, self')
    ∧ length batches = 3
    ∧ iterate id id 3 (reset self') = Some (batches, self').
Proof.
  destruct (iterate_twice id id 3 Sample.story10 Sample.query10 Sample.answer10
              (Make Sample.story10 Sample.query10 Sample.answer10
                    10 3 2 1 [(2, 1); (1, 1)] None) eq_refl)
    as (batches & self' & Hiter & Hlen & _ & _ & _ & _ & Hagain & _).
  eexists _, batches, self'. split; [reflexivity|].
  split; [exact Hiter|]. split; [exact Hlen|exact Hagain].
Defined.
End QAExamples.

(** ** More on lines and tokens *)

Section Lines.
Import Py BABI.

Lemma data_to_list_terminated_witness :
  ∃ out, data_to_list (bytes_of_string ("1 a" ++ nl ++ " 2 b ") ++ [LF]) = Ok out
         ∧ Forall2 (fun line o => ∃ ul, utf8_decode line = Ok ul ∧ o = strip ul)
                   (split_char LF (bytes_of_string ("1 a" ++ nl ++ " 2 b "))) out.
Proof.
  apply data_to_list_terminated.
  repeat constructor; eexists; vm_compute; reflexivity.
Defined.

Lemma length_drop_last {A} (l : list A) : length (drop_last l) = pred (length l).
Proof.
  unfold drop_last. induction l as [|x [|y l] IH]; try done.
  cbn [removelast length] in *. by rewrite IH.
Qed.

Lemma length_split_char sep s :
  length (split_char sep s) = S (count_occ N.eq_dec s sep).
Proof.
  induction s as [|c s IH]; [done|]. cbn [split_char].
  destruct (N.eqb_spec c sep) as [->|Hne].
  - rewrite count_occ_cons_eq by done. cbn. by rewrite IH.
  - rewrite count_occ_cons_neq by done.
    destruct (split_char sep s); [done|]. exact IH.
Qed.

(** X2.  When [data_to_list] returns, it returns as many lines as the
    data has newline characters. *)
Theorem data_to_list_length data out :
  data_to_list data = Ok out → length out = count_occ N.eq_dec data LF.
Proof.
  unfold data_to_list. intros Hm%mapM_Ok%Forall2_length.
  by rewrite <- Hm, length_drop_last, length_split_char.
Qed.

Lemma data_to_list_length_witness :
  length [u "1 a"; u "2 b"]
  = count_occ N.eq_dec (bytes_of_string ("1 a" ++ nl ++ " 2 b " ++ nl ++ "3")) LF.
Proof.
  apply (data_to_list_length (bytes_of_string ("1 a" ++ nl ++ " 2 b " ++ nl ++ "3"))).
  vm_compute. reflexivity.
Defined.

Lemma mapM_fmap_total {A B C} (f : A → result B) (g : B → C) (h : A → C) l :
  (∀ x, x ∈ l → g <$> f x = Ok (h x)) →
  mapM (fun x => g <$> f x) l = Ok (map h l).
Proof.
  intros Hf. apply mapM_Ok. induction l as [|x l IH]; constructor.
  - apply Hf. by left.
  - apply IH. intros y Hy. apply Hf. by right.
Qed.

Lemma utf8_decode_ascii bs :
  Forall (fun b => (b < 128)%N) bs → utf8_decode bs = Ok bs.
Proof.
  induction 1 as [|b bs Hb _ IH]; [done|]. cbn [utf8_decode].
  destruct (N.ltb_spec b 128); [|lia]. by rewrite IH.
Qed.

Lemma split_char_Forall (P : N → Prop) sep s :
  Forall P s → Forall (Forall P) (split_char sep s).
Proof.
  induction 1 as [|c s Hc _ IH]; cbn [split_char]; [by repeat constructor|].
  destruct (c =? sep)%N; [by constructor|].
  destruct (split_char sep s) as [|piece pieces]; [by repeat constructor|].
  apply Forall_cons in IH as [? ?]. by repeat constructor.
Qed.

Lemma Forall_drop_last {A} (P : A → Prop) l : Forall P l → Forall P (drop_last l).
Proof.
  unfold drop_last. induction 1 as [|x [|y l] Hx Hl IH]; by constructor.
Qed.

(** X3.  On ASCII data [data_to_list] cannot raise: it returns the pieces
    between the newlines, the last one left out, each stripped. *)
Theorem data_to_list_ascii data :
  Forall (fun b => (b < 128)%N) data →
  data_to_list data = Ok (map strip (drop_last (split_char LF data))).
Proof.
  intros Hascii. unfold data_to_list. apply mapM_fmap_total.
  intros line Hin. rewrite utf8_decode_ascii; [done|].
  pose proof (Forall_drop_last _ _ (split_char_Forall _ LF _ Hascii)) as Hall.
  rewrite Forall_forall in Hall. by apply Hall.
Qed.

Lemma data_to_list_ascii_witness :
  data_to_list (bytes_of_string ("1 a" ++ nl ++ " 2 b " ++ nl))
  = Ok (map strip (drop_last (split_char LF
          (bytes_of_string ("1 a" ++ nl ++ " 2 b " ++ nl))))).
Proof.
  apply data_to_list_ascii. vm_compute. repeat constructor.
Defined.
End Lines.

Section Tokens.
Import Py BABI.

Local Abbreviation nonspace := (fun c : N => negb (is_space c)).

Lemma filter_lstrip s : List.filter nonspace (lstrip s) = List.filter nonspace s.
Proof.
  induction s as [|c s IH]; [done|]. cbn [lstrip List.filter].
  destruct (is_space c) eqn:E; cbn; [done|]. by rewrite E.
Qed.

Lemma filter_strip s : List.filter nonspace (strip s) = List.filter nonspace s.
Proof.
  unfold strip, rstrip.
  by rewrite filter_rev, filter_lstrip, <- filter_rev, rev_involutive, filter_lstrip.
Qed.

Lemma lstrip_Forall (P : N → Prop) s : Forall P s → Forall P (lstrip s).
Proof.
  induction 1 as [|c s Hc Hs IH]; [done|]. cbn [lstrip].
  destruct (is_space c); [done|]. by constructor.
Qed.

Lemma strip_Forall (P : N → Prop) s : Forall P s → Forall P (strip s).
Proof.
  intros H. unfold strip, rstrip.
  apply Forall_rev, lstrip_Forall, Forall_rev, lstrip_Forall, H.
Qed.

Lemma lstrip_snoc l c : is_space c = false → lstrip (l ++ [c]) = lstrip l ++ [c].
Proof.
  intros Hc. induction l as [|x l IH]; cbn [lstrip app]; [by rewrite Hc|].
  by destruct (is_space x).
Qed.

Lemma lstrip_id c s : is_space c = false → lstrip (c :: s) = c :: s.
Proof. intros Hc. cbn. by rewrite Hc. Qed.

Lemma rstrip_cons c s : is_space c = false → rstrip (c :: s) = c :: rstrip s.
Proof.
  intros Hc. unfold rstrip. cbn [rev].
  by rewrite lstrip_snoc, rev_app_distr.
Qed.

Lemma lstrip_head s : lstrip s = [] ∨ ∃ c s', lstrip s = c :: s' ∧ is_space c = false.
Proof.
  induction s as [|c s IH]; [by left|]. cbn [lstrip].
  destruct (is_space c) eqn:E; [done|]. right. by exists c, s.
Qed.

Lemma lstrip_idemp s : lstrip (lstrip s) = lstrip s.
Proof.
  destruct (lstrip_head s) as [->|(c & s' & -> & Hc)]; [done|].
  by apply lstrip_id.
Qed.

(** [strip] leaves nothing to strip. *)
Lemma strip_idemp s : strip (strip s) = strip s.
Proof.
  unfold strip at 2 3.
  destruct (lstrip_head s) as [->|(c & s' & -> & Hc)]; [done|].
  rewrite rstrip_cons by done. unfold strip.
  rewrite lstrip_id by done. rewrite rstrip_cons by done. f_equal.
  unfold rstrip. by rewrite rev_involutive, lstrip_idemp.
Qed.

(** The pieces of the split put together are the sentence. *)
Lemma concat_re_split_from m s :
  concat (re_split_from m s)
  = match m with InText piece => piece | InRun sep => sep end ++ s.
Proof.
  revert m. induction s as [|c s IH]; intros [piece|sep]; cbn [re_split_from].
  - cbn. by rewrite !app_nil_r.
  - cbn. by rewrite !app_nil_r.
  - destruct (is_word c); cbn [concat]; rewrite IH; [by rewrite <- app_assoc|done].
  - destruct (is_word c); cbn [concat]; rewrite IH; [done|by rewrite <- app_assoc].
Qed.

Lemma concat_re_split s : concat (re_split_nonword_opt s) = s.
Proof. unfold re_split_nonword_opt. by rewrite concat_re_split_from. Qed.

(** Every piece is made of word characters only, or of none. *)
Lemma re_split_from_pieces m s :
  match m with
  | InText piece => Forall (fun c => is_word c = true) piece
  | InRun sep => Forall (fun c => is_word c = false) sep
  end →
  Forall (fun p => Forall (fun c => is_word c = true) p
                   ∨ Forall (fun c => is_word c = false) p)
         (re_split_from m s).
Proof.
  revert m. induction s as [|c s IH]; intros [piece|sep] Hm; cbn [re_split_from].
  - constructor; [by left|constructor].
  - constructor; [by right|]. constructor; [by left|constructor].
  - destruct (is_word c) eqn:E.
    + apply IH, Forall_app. split; [done|]. by constructor.
    + constructor; [by left|]. apply IH. by constructor.
  - destruct (is_word c) eqn:E.
    + constructor; [by right|]. apply IH. by constructor.
    + apply IH, Forall_app. split; [done|]. by constructor.
Qed.

(** X4.  [tokenize] loses nothing but whitespace: the characters of the
    tokens that are not whitespace, in order, are the characters of the
    sentence that are not whitespace. *)
Theorem tokenize_keeps_nonspace sentence :
  List.filter nonspace (concat (tokenize sentence))
  = List.filter nonspace sentence.
Proof.
  unfold tokenize. rewrite <- (concat_re_split sentence) at 2.
  induction (re_split_nonword_opt sentence) as [|x pieces IH]; [done|].
  cbn [List.filter map concat]. rewrite (List.filter_app _ x), <- IH.
  destruct (strip x) as [|c t] eqn:E; cbn [truthy].
  - by rewrite <- (filter_strip x), E.
  - cbn [map concat]. by rewrite List.filter_app, filter_strip.
Qed.

(** X5.  A token is never empty, has no whitespace at either end, and is
    either a word (letters, digits, underscores) or a run of characters
    none of which is one of these. *)
Theorem tokenize_tokens sentence t :
  t ∈ tokenize sentence →
  t ≠ []
  ∧ strip t = t
  ∧ (Forall (fun c => is_word c = true) t ∨ Forall (fun c => is_word c = false) t).
Proof.
  unfold tokenize. rewrite list_elem_of_In, in_map_iff.
  intros (x & <- & [Hx Hkeep]%filter_In).
  split; [by destruct (strip x)|]. split; [apply strip_idemp|].
  pose proof (re_split_from_pieces (InText []) sentence (Forall_nil_2 _)) as Hall.
  rewrite Forall_forall in Hall.
  destruct (Hall x) as [Hw|Hn]; [by apply list_elem_of_In|..].
  - left. by apply strip_Forall.
  - right. by apply strip_Forall.
Qed.

Lemma tokenize_tokens_witness :
  u "," ≠ []
  ∧ strip (u ",") = u ","
  ∧ (Forall (fun c => is_word c = true) (u ",")
     ∨ Forall (fun c => is_word c = false) (u ",")).
Proof.
  apply (tokenize_tokens (u "Mary , moved")). vm_compute.
  right. left.
Defined.
End Tokens.

(** ** More on the parser *)

Section ParserErrors.
Import Py BABI.

Lemma fmap_Raise {A B} (f : A → B) (m : result A) e :
  f <$> m = Raise e → m = Raise e.
Proof. destruct m; cbn; congruence. Qed.

Lemma utf8_decode_Raise bs e : utf8_decode bs = Raise e → e = UnicodeDecodeError.
Proof.
  remember (length bs) as n eqn:Hn. revert bs Hn.
  induction n as [n IH] using lt_wf_ind. intros bs ->.
  destruct bs as [|b0 r0]; [done|]. cbn [utf8_decode].
  repeat case_match; subst;
    try (by intros [= <-]);
    intros Hr%fmap_Raise; (eapply IH; [|reflexivity|exact Hr]); cbn; lia.
Qed.

Lemma data_to_list_Raise data e :
  data_to_list data = Raise e → e = UnicodeDecodeError.
Proof.
  unfold data_to_list. intros (line & _ & Hline%fmap_Raise)%mapM_Raise.
  by apply utf8_decode_Raise in Hline.
Qed.

Lemma int_Raise s e : int s = Raise e → e = ValueError.
Proof. unfold int. repeat case_match; by intros [= <-]. Qed.

Lemma parse_line_Raise st line e : parse_line st line = Raise e → e = ValueError.
Proof.
  unfold parse_line. destruct (split_once SPACE line) as [[nid text]|]; [|by intros [= <-]].
  destruct (int nid) as [n|e'] eqn:Hint;
    [|intros [= <-]; by apply int_Raise in Hint].
  rewrite bind_Ok. repeat case_match; by intros [= <-].
Qed.

(** Whether a line is accepted does not depend on what came before. *)
Lemma parse_line_Raise_any st st' line e :
  parse_line st line = Raise e → parse_line st' line = Raise e.
Proof.
  unfold parse_line. destruct (split_once SPACE line) as [[nid text]|]; [|done].
  destruct (int nid) as [n|e'] eqn:Hint; [|done].
  rewrite !bind_Ok. repeat case_match; done.
Qed.

Lemma parse_lines_Raise st lines e :
  parse_lines st lines = Raise e → e = ValueError.
Proof.
  revert st. induction lines as [|line lines IH]; intros st; [done|].
  cbn [parse_lines]. destruct (parse_line st line) as [st'|e'] eqn:Hl.
  - rewrite bind_Ok. apply IH.
  - intros [= <-]. by apply parse_line_Raise in Hl.
Qed.

Lemma parse_lines_bad_line st lines line e :
  line ∈ lines → parse_line (Parser [] []) line = Raise e →
  parse_lines st lines = Raise ValueError.
Proof.
  intros Hin Hbad. revert st.
  induction lines as [|l lines IH]; intros st; [by apply not_elem_of_nil in Hin|].
  cbn [parse_lines]. destruct (parse_line st l) as [st'|e'] eqn:Hl.
  - rewrite bind_Ok. apply elem_of_cons in Hin as [->|Hin]; [|by apply IH].
    by rewrite (parse_line_Raise_any _ st _ _ Hbad) in Hl.
  - by apply parse_line_Raise in Hl as ->.
Qed.

Lemma parse_lines_app st l1 l2 :
  parse_lines st (l1 ++ l2) = st' ← parse_lines st l1; parse_lines st' l2.
Proof.
  revert st. induction l1 as [|l l1 IH]; intros st; [done|].
  cbn [app parse_lines]. destruct (parse_line st l) as [st'|e]; [|done].
  rewrite !bind_Ok. apply IH.
Qed.

(** X6.  [parse_babi] raises [UnicodeDecodeError], [ValueError] or
    [TypeError] and nothing else, each from its own stage: a line that is
    not UTF-8, a line that does not have the format, or, the lines being
    all well formed, a question with no sentence before it in its
    story. *)
Theorem parse_babi_errors babi_data e :
  parse_babi babi_data = Raise e →
  (e = UnicodeDecodeError ∧ data_to_list babi_data = Raise UnicodeDecodeError)
  ∨ (e = ValueError
     ∧ ∃ lines, data_to_list babi_data = Ok lines
                ∧ parse_lines (Parser [] []) lines = Raise ValueError)
  ∨ (e = TypeError
     ∧ ∃ lines st q a,
         data_to_list babi_data = Ok lines
         ∧ parse_lines (Parser [] []) lines = Ok st
         ∧ ([], q, a) ∈ data st).
Proof.
  unfold parse_babi.
  destruct (data_to_list babi_data) as [lines|e1] eqn:Hd.
  - rewrite bind_Ok.
    destruct (parse_lines (Parser [] []) lines) as [st|e2] eqn:Hp.
    + rewrite bind_Ok. intros ([[story q] a] & Hin & Hf)%mapM_Raise.
      right. right. destruct story as [|s0 story]; [|done].
      cbn in Hf. injection Hf as <-. split; [done|]. by exists lines, st, q, a.
    + intros [= <-]. right. left.
      pose proof (parse_lines_Raise _ _ _ Hp) as ->. split; [done|]. by exists lines.
  - intros [= <-]. left. by pose proof (data_to_list_Raise _ _ Hd) as ->.
Qed.

Lemma parse_babi_errors_witness :
  (TypeError = UnicodeDecodeError
   ∧ data_to_list (bytes_of_string ("1 Is it?" ++ tab ++ "no" ++ tab ++ "1" ++ nl))
     = Raise UnicodeDecodeError)
  ∨ (TypeError = ValueError
     ∧ ∃ lines,
         data_to_list (bytes_of_string ("1 Is it?" ++ tab ++ "no" ++ tab ++ "1" ++ nl))
         = Ok lines
         ∧ parse_lines (Parser [] []) lines = Raise ValueError)
  ∨ (TypeError = TypeError
     ∧ ∃ lines st q a,
         data_to_list (bytes_of_string ("1 Is it?" ++ tab ++ "no" ++ tab ++ "1" ++ nl))
         = Ok lines
         ∧ parse_lines (Parser [] []) lines = Ok st
         ∧ ([], q, a) ∈ data st).
Proof. apply parse_babi_errors. vm_compute. reflexivity. Defined.

(** X7.  A line that does not have the format, wherever it stands in
    data that decodes, makes [parse_babi] raise [ValueError]: a line with
    no space, a line whose text before the first space is not a number, a
    line with a tab and not exactly two. *)
Theorem parse_babi_malformed babi_data lines line :
  data_to_list babi_data = Ok lines →
  line ∈ lines →
  split_once SPACE line = None
  ∨ (∃ nid text, split_once SPACE line = Some (nid, text)
                 ∧ int nid = Raise ValueError)
  ∨ (∃ nid text n, split_once SPACE line = Some (nid, text)
                   ∧ int nid = Ok n
                   ∧ existsb (N.eqb TAB) text = true
                   ∧ length (split_char TAB text) ≠ 3) →
  parse_babi babi_data = Raise ValueError.
Proof.
  intros Hd Hin Hbad. unfold parse_babi. rewrite Hd, bind_Ok.
  rewrite (parse_lines_bad_line _ lines line ValueError Hin); [done|].
  unfold parse_line.
  destruct Hbad as [->|[(nid & text & -> & ->)|(nid & text & n & -> & -> & -> & Hlen)]];
    [done..|].
  rewrite bind_Ok.
  by destruct (split_char TAB text) as [|? [|? [|? [|? ?]]]].
Qed.

Lemma parse_babi_malformed_witness :
  parse_babi (bytes_of_string ("1 Mary moved." ++ nl ++ "oops" ++ nl ++ "3 x" ++ nl))
  = Raise ValueError.
Proof.
  apply (parse_babi_malformed _ [u "1 Mary moved."; u "oops"; u "3 x"] (u "oops")).
  - vm_compute. reflexivity.
  - right. left.
  - left. vm_compute. reflexivity.
Defined.
End ParserErrors.

Section ParserStories.
Import Py BABI.

Lemma parse_line_count st line st' :
  parse_line st line = Ok st' →
  length (data st') = length (data st) + (if is_question line then 1 else 0).
Proof.
  unfold parse_line, is_question.
  destruct (split_once SPACE line) as [[nid text]|]; [|done].
  destruct (int nid) as [n|e]; [|done]. rewrite bind_Ok.
  destruct (existsb (N.eqb TAB) text).
  - destruct (split_char TAB text) as [|? [|? [|? [|? ?]]]]; try done.
    intros [= <-]. cbn. rewrite length_app. cbn. lia.
  - intros [= <-]. cbn. lia.
Qed.

Lemma parse_lines_count st lines st' :
  parse_lines st lines = Ok st' →
  length (data st') = length (data st) + length (List.filter is_question lines).
Proof.
  revert st. induction lines as [|line lines IH]; intros st.
  - intros [= <-]. cbn. lia.
  - cbn [parse_lines]. destruct (parse_line st line) as [st1|e] eqn:Hl; [|done].
    rewrite bind_Ok. intros Hrest%IH. apply parse_line_count in Hl.
    cbn [List.filter]. destruct (is_question line); cbn [length]; lia.
Qed.

Lemma length_mapM_Ok {A B} (f : A → result B) l k :
  mapM f l = Ok k → length k = length l.
Proof. intros H%mapM_Ok%Forall2_length. done. Qed.

Lemma split_char_no_sep sep s :
  existsb (N.eqb sep) s = false → split_char sep s = [s].
Proof.
  induction s as [|c s IH]; [done|]. cbn [existsb split_char].
  rewrite (N.eqb_sym sep c). destruct (c =? sep)%N; [done|].
  intros H%IH. by rewrite H.
Qed.

Lemma parse_line_questions st line st' :
  parse_line st line = Ok st' →
  map (fun ex => (ex.1.2, ex.2)) (data st')
  = map (fun ex => (ex.1.2, ex.2)) (data st)
    ++ match question_of line with Some qa => [qa] | None => [] end.
Proof.
  unfold parse_line, question_of.
  destruct (split_once SPACE line) as [[nid text]|]; [|done].
  destruct (int nid) as [n|e]; [|done]. rewrite bind_Ok.
  destruct (existsb (N.eqb TAB) text) eqn:Htab.
  - destruct (split_char TAB text) as [|? [|? [|? [|? ?]]]]; try done.
    intros [= <-]. cbn. by rewrite map_app.
  - rewrite (split_char_no_sep _ _ Htab). intros [= <-]. cbn. by rewrite app_nil_r.
Qed.

Lemma parse_lines_questions st lines st' :
  parse_lines st lines = Ok st' →
  map (fun ex => (ex.1.2, ex.2)) (data st')
  = map (fun ex => (ex.1.2, ex.2)) (data st) ++ omap question_of lines.
Proof.
  revert st. induction lines as [|line lines IH]; intros st.
  - intros [= <-]. cbn. by rewrite app_nil_r.
  - cbn [parse_lines]. destruct (parse_line st line) as [st1|e] eqn:Hl; [|done].
    rewrite bind_Ok. intros ->%IH. rewrite (parse_line_questions _ _ _ Hl).
    rewrite <- app_assoc. f_equal. cbn [omap list_omap].
    by destruct (question_of line).
Qed.

(** X8.  When [parse_babi] returns, it returns one example for each
    question line, a line with a tab after its index; the queries and the
    answers of the examples are those of these lines, in their order. *)
Theorem parse_babi_count babi_data out :
  parse_babi babi_data = Ok out →
  ∃ lines, data_to_list babi_data = Ok lines
           ∧ length out = length (List.filter is_question lines)
           ∧ map (fun ex => (ex.1.2, ex.2)) out = omap question_of lines.
Proof.
  unfold parse_babi.
  destruct (data_to_list babi_data) as [lines|e]; [|done]. rewrite bind_Ok.
  destruct (parse_lines (Parser [] []) lines) as [st|e] eqn:Hp; [|done].
  rewrite bind_Ok. intros Hm. exists lines. split; [done|]. split.
  - apply length_mapM_Ok in Hm. apply parse_lines_count in Hp. cbn in Hp. lia.
  - apply parse_lines_questions in Hp. cbn in Hp. rewrite <- Hp.
    apply mapM_Ok in Hm. clear Hp.
    induction Hm as [|[[sub q] a] y d k Hy _ IH]; [done|].
    cbn [map]. rewrite IH. f_equal.
    destruct (flatten sub); [|done]. by injection Hy as <-.
Qed.

Lemma parse_babi_count_witness :
  ∃ lines,
    data_to_list (bytes_of_string
      ("1 Mary moved to the bathroom." ++ nl
       ++ "2 Where is Mary?" ++ tab ++ "bathroom" ++ tab ++ "1" ++ nl
       ++ "3 John went to the hallway." ++ nl
       ++ "4 Where is John?" ++ tab ++ "hallway" ++ tab ++ "3" ++ nl)) = Ok lines
    ∧ length [(tokenize (u "Mary moved to the bathroom."),
               tokenize (u "Where is Mary?"), u "bathroom");
              (tokenize (u "Mary moved to the bathroom.")
               ++ tokenize (u "John went to the hallway."),
               tokenize (u "Where is John?"), u "hallway")]
      = length (List.filter is_question lines)
    ∧ [(tokenize (u "Where is Mary?"), u "bathroom");
       (tokenize (u "Where is John?"), u "hallway")]
      = omap question_of lines.
Proof.
  apply (parse_babi_count _
    [(tokenize (u "Mary moved to the bathroom."),
      tokenize (u "Where is Mary?"), u "bathroom");
     (tokenize (u "Mary moved to the bathroom.")
      ++ tokenize (u "John went to the hallway."),
      tokenize (u "Where is John?"), u "hallway")]).
  vm_compute. reflexivity.
Defined.

Lemma substory_nonempty story : Forall (fun x => x ≠ []) (substory_of story).
Proof.
  apply Forall_forall. intros x (e & _ & He)%list_elem_of_omap.
  destruct e as [sent|]; [|done]. cbn in He.
  destruct sent; [done|]. by injection He as <-.
Qed.

Lemma parse_line_substories st line st' :
  Forall (fun '(sub, _, _) => Forall (fun x : list ustring => x ≠ []) sub) (data st) →
  parse_line st line = Ok st' →
  Forall (fun '(sub, _, _) => Forall (fun x : list ustring => x ≠ []) sub) (data st').
Proof.
  intros Hinv. unfold parse_line.
  destruct (split_once SPACE line) as [[nid text]|]; [|done].
  destruct (int nid) as [n|e]; [|done]. rewrite bind_Ok.
  destruct (existsb (N.eqb TAB) text).
  - destruct (split_char TAB text) as [|? [|? [|? [|? ?]]]]; try done.
    intros [= <-]. cbn. apply Forall_app. split; [done|].
    constructor; [|done]. apply substory_nonempty.
  - by intros [= <-].
Qed.

Lemma parse_lines_substories st lines st' :
  Forall (fun '(sub, _, _) => Forall (fun x : list ustring => x ≠ []) sub) (data st) →
  parse_lines st lines = Ok st' →
  Forall (fun '(sub, _, _) => Forall (fun x : list ustring => x ≠ []) sub) (data st').
Proof.
  revert st. induction lines as [|line lines IH]; intros st Hinv.
  - by intros [= <-].
  - cbn [parse_lines]. destruct (parse_line st line) as [st1|e] eqn:Hl; [|done].
    rewrite bind_Ok. apply IH. by eapply parse_line_substories.
Qed.

(** X9.  [parse_babi] never returns an example with an empty story. *)
Theorem parse_babi_story_nonempty babi_data out s q a :
  parse_babi babi_data = Ok out → (s, q, a) ∈ out → s ≠ [].
Proof.
  unfold parse_babi.
  destruct (data_to_list babi_data) as [lines|e]; [|done]. rewrite bind_Ok.
  destruct (parse_lines (Parser [] []) lines) as [st|e] eqn:Hp; [|done].
  rewrite bind_Ok. intros Hm%mapM_Ok Hin.
  apply parse_lines_substories in Hp; [|constructor].
  apply list_elem_of_lookup in Hin as [i Hi].
  destruct (Forall2_lookup_r _ _ _ _ _ Hm Hi) as ([[sub q'] a'] & Hsub & Hf).
  rewrite Forall_forall in Hp.
  pose proof (Hp _ (list_elem_of_lookup_2 _ _ _ Hsub)) as Hne. cbn in Hne.
  destruct sub as [|x sub]; [done|]. apply Forall_cons in Hne as [Hx _].
  unfold flatten, reduce in Hf. rewrite bind_Ok in Hf. injection Hf as <- <- <-.
  rewrite fold_left_app_concat. by destruct x.
Qed.
End ParserStories.

Section ParserCompose.
Import Py BABI.

Lemma split_char_app_sep sep body rest :
  split_char sep (body ++ sep :: rest) = split_char sep body ++ split_char sep rest.
Proof.
  induction body as [|c body IH]; cbn [app split_char].
  - by rewrite N.eqb_refl.
  - destruct (c =? sep)%N; rewrite IH; [done|].
    pose proof (split_char_not_nil sep body).
    by destruct (split_char sep body).
Qed.

Lemma mapM_app {A B} (f : A → result B) l1 l2 :
  mapM f (l1 ++ l2) = k1 ← mapM f l1; k2 ← mapM f l2; Ok (k1 ++ k2).
Proof.
  induction l1 as [|x l1 IH]; cbn [app].
  - rewrite mapM_nil, bind_Ok. by destruct (mapM f l2).
  - rewrite !mapM_cons. destruct (f x) as [y|e]; [|done]. rewrite !bind_Ok, IH.
    destruct (mapM f l1) as [k1|e]; [|done]. rewrite !bind_Ok.
    by destruct (mapM f l2).
Qed.

(** The lines of two texts put end to end, the first one closed by a
    newline, are the lines of the first and then those of the second. *)
Lemma data_to_list_app body rest :
  data_to_list ((body ++ [LF]) ++ rest)
  = l1 ← data_to_list (body ++ [LF]); l2 ← data_to_list rest; Ok (l1 ++ l2).
Proof.
  unfold data_to_list.
  rewrite <- app_assoc. cbn [app].
  rewrite split_char_app_sep, split_char_terminated, drop_last_snoc.
  unfold drop_last. rewrite removelast_app by apply split_char_not_nil.
  apply mapM_app.
Qed.

(** The examples recorded so far are never looked at again. *)
Lemma parse_line_prefix d st line :
  parse_line (Parser (d ++ data st) (story st)) line
  = (fun st' => Parser (d ++ data st') (story st')) <$> parse_line st line.
Proof.
  unfold parse_line.
  destruct (split_once SPACE line) as [[nid text]|]; [|done].
  destruct (int nid) as [n|e]; [|done]. rewrite !bind_Ok. cbn [data story].
  destruct (existsb (N.eqb TAB) text); [|done].
  destruct (split_char TAB text) as [|? [|? [|? [|? ?]]]]; try done.
  cbn. by rewrite app_assoc.
Qed.

Lemma parse_lines_prefix d st lines :
  parse_lines (Parser (d ++ data st) (story st)) lines
  = (fun st' => Parser (d ++ data st') (story st')) <$> parse_lines st lines.
Proof.
  revert st. induction lines as [|line lines IH]; intros st; [done|].
  cbn [parse_lines]. rewrite parse_line_prefix.
  destruct (parse_line st line) as [st1|e]; [|done]. cbn. apply (IH st1).
Qed.

(** A line numbered 1 forgets the story so far. *)
Lemma parse_line_reset d story1 story2 line nid text :
  split_once SPACE line = Some (nid, text) → int nid = Ok 1%Z →
  parse_line (Parser d story1) line = parse_line (Parser d story2) line.
Proof. intros Hs Hi. unfold parse_line. by rewrite Hs, Hi. Qed.

Lemma mapM_flatten_app (d1 d2 : list (list (list ustring) * list ustring * ustring)) :
  mapM (fun '(story, q, answer) => s ← flatten story; Ok (s, q, answer)) (d1 ++ d2)
  = e1 ← mapM (fun '(story, q, answer) => s ← flatten story; Ok (s, q, answer)) d1;
    e2 ← mapM (fun '(story, q, answer) => s ← flatten story; Ok (s, q, answer)) d2;
    Ok (e1 ++ e2).
Proof. apply mapM_app. Qed.

(** X10.  Stories are parsed one by one: if a text closed by a newline
    parses, and a second text that starts with a line numbered 1 parses,
    the two put end to end parse to the examples of the first followed
    by those of the second. *)
Theorem parse_babi_app body rest e1 e2 line lines nid text :
  parse_babi (body ++ [LF]) = Ok e1 →
  parse_babi rest = Ok e2 →
  data_to_list rest = Ok (line :: lines) →
  split_once SPACE line = Some (nid, text) →
  int nid = Ok 1%Z →
  parse_babi ((body ++ [LF]) ++ rest) = Ok (e1 ++ e2).
Proof.
  intros H1 H2 Hrest Hs Hi. unfold parse_babi in *.
  rewrite data_to_list_app. rewrite Hrest in *.
  destruct (data_to_list (body ++ [LF])) as [l1|e]; [|done].
  rewrite !bind_Ok in *. rewrite parse_lines_app.
  destruct (parse_lines (Parser [] []) l1) as [[d1 s1]|e]; [|done].
  cbn [parse_lines] in *. rewrite !bind_Ok in *.
  rewrite (parse_line_reset d1 s1 [] line nid text Hs Hi).
  pose proof (parse_line_prefix d1 (Parser [] []) line) as Hl.
  cbn [data story] in Hl. rewrite app_nil_r in Hl. rewrite Hl. clear Hl.
  destruct (parse_line (Parser [] []) line) as [st1|e]; [|done].
  cbn [fmap result_fmap]. rewrite bind_Ok in *.
  rewrite parse_lines_prefix.
  destruct (parse_lines st1 lines) as [st2|e]; [|done].
  cbn [fmap result_fmap]. rewrite bind_Ok in *. cbn [data] in *.
  by rewrite mapM_flatten_app, H1, bind_Ok, H2, bind_Ok.
Qed.

Lemma parse_babi_app_witness :
  parse_babi
    ((bytes_of_string
        ("1 Mary moved to the bathroom." ++ nl
         ++ "2 Where is Mary?" ++ tab ++ "bathroom" ++ tab ++ "1") ++ [LF])
     ++ bytes_of_string
          ("1 John went to the hallway." ++ nl
           ++ "2 Where is John?" ++ tab ++ "hallway" ++ tab ++ "1" ++ nl))
  = Ok ([(tokenize (u "Mary moved to the bathroom."),
          tokenize (u "Where is Mary?"), u "bathroom")]
        ++ [(tokenize (u "John went to the hallway."),
             tokenize (u "Where is John?"), u "hallway")]).
Proof.
  apply (parse_babi_app _ _ _ _
           (u "1 John went to the hallway.")
           [bytes_of_string ("2 Where is John?" ++ tab ++ "hallway" ++ tab ++ "1")]
           (u "1") (u "John went to the hallway."));
    vm_compute; reflexivity.
Defined.
End ParserCompose.

(** ** More on the statistics and the vectoriser *)

Section StatisticsMore.
Import Py BABI.

Variable set_iter : gset ustring → list ustring.
Hypothesis set_iter_elements : ∀ X, set_iter X ≡ₚ elements X.

Lemma fold_left_max_in rest x :
  fold_left Nat.max rest x = x ∨ fold_left Nat.max rest x ∈ rest.
Proof.
  revert x. induction rest as [|y rest IH]; intros x; cbn [fold_left]; [by left|].
  destruct (IH (Nat.max x y)) as [E|Hin]; [|right; by right].
  rewrite E. destruct (Nat.max_spec x y) as [[_ ->]|[_ ->]]; [right|]; by left.
Qed.

(** X11.  [story_maxlen] is the length of a longest story of the two
    splits and [query_maxlen] that of a longest query: no story or query
    is longer, and one is that long. *)
Theorem compute_statistics_maxlen_attained train test st :
  compute_statistics set_iter train test = Ok st →
  Forall (fun '(s, q, _) => length s ≤ story_maxlen st ∧ length q ≤ query_maxlen st)
         (train ++ test)
  ∧ (∃ s q a, (s, q, a) ∈ train ++ test ∧ length s = story_maxlen st)
  ∧ (∃ s q a, (s, q, a) ∈ train ++ test ∧ length q = query_maxlen st).
Proof.
  intros Hst. split; [by eapply compute_statistics_maxlen|].
  revert Hst. unfold compute_statistics.
  destruct (train ++ test) as [|[[s0 q0] a0] rest]; [done|].
  rewrite reduce_union by done. rewrite bind_Ok. cbn. intros [= <-]. cbn.
  split.
  - destruct (fold_left_max_in (map (fun '(s, _, _) => length s) rest) (length s0))
      as [->|([[s q] a] & -> & Hin)%list_elem_of_fmap].
    + exists s0, q0, a0. split; [by left|done].
    + exists s, q, a. split; [by right|done].
  - destruct (fold_left_max_in (map (fun '(_, q, _) => length q) rest) (length q0))
      as [->|([[s q] a] & -> & Hin)%list_elem_of_fmap].
    + exists s0, q0, a0. split; [by left|done].
    + exists s, q, a. split; [by right|done].
Qed.

Lemma StronglySorted_lookup_lt {A} (R : relation A) l i j x y :
  StronglySorted R l → l !! i = Some x → l !! j = Some y → i < j → R x y.
Proof.
  intros Hs. revert i j. induction Hs as [|z l _ IH Hz]; intros i j Hi Hj Hlt; [done|].
  destruct j as [|j]; [lia|]. cbn in Hj. destruct i as [|i].
  - injection Hi as <-. rewrite Forall_forall in Hz.
    by apply Hz, (list_elem_of_lookup_2 _ j).
  - cbn in Hi. apply (IH i j); [done..|lia].
Qed.

(** X12.  [word_idx] keeps the order of the words: one word is before
    another as a string exactly when its index is the smaller. *)
Theorem word_idx_order train test st w1 w2 i1 i2 :
  compute_statistics set_iter train test = Ok st →
  word_idx st !! w1 = Some i1 →
  word_idx st !! w2 = Some i2 →
  ustring_lt w1 w2 ↔ i1 < i2.
Proof.
  intros Hst H1 H2.
  pose proof (compute_statistics_Ok_inv _ _ _ _ Hst) as Hne.
  destruct (compute_statistics_spec set_iter set_iter_elements train test Hne)
    as (st' & vocab & Hst' & Hsorted & _ & _ & Hidx).
  assert (st' = st) as -> by congruence.
  apply Hidx in H1 as (j1 & -> & Hj1). apply Hidx in H2 as (j2 & -> & Hj2).
  split.
  - intros Hlt. destruct (Nat.lt_trichotomy j1 j2) as [?|[->|Hgt]]; [lia|..].
    + assert (w1 = w2) as -> by congruence. by apply ustring_lt_ne in Hlt.
    + pose proof (StronglySorted_lookup_lt _ _ _ _ _ _ Hsorted Hj2 Hj1 Hgt) as Hrev.
      red in Hlt, Hrev. by rewrite (ustring_ltb_asym _ _ Hlt) in Hrev.
  - intros Hlt. apply (StronglySorted_lookup_lt _ _ _ _ _ _ Hsorted Hj1 Hj2). lia.
Qed.

Lemma word_idx_inj train test st w1 w2 i :
  compute_statistics set_iter train test = Ok st →
  word_idx st !! w1 = Some i → word_idx st !! w2 = Some i → w1 = w2.
Proof.
  intros Hst H1 H2.
  pose proof (compute_statistics_Ok_inv _ _ _ _ Hst) as Hne.
  destruct (compute_statistics_spec set_iter set_iter_elements train test Hne)
    as (st' & vocab & Hst' & _ & _ & _ & Hidx).
  assert (st' = st) as -> by congruence.
  apply Hidx in H1 as (j1 & -> & Hj1). apply Hidx in H2 as (j2 & [= <-] & Hj2).
  congruence.
Qed.

(** X13.  Vectorising loses nothing: two lists of words that
    [words_to_vector] turns into the same list of indices are the same
    list of words. *)
Theorem words_to_vector_inj train test st words1 words2 v :
  compute_statistics set_iter train test = Ok st →
  words_to_vector st words1 = Ok v →
  words_to_vector st words2 = Ok v →
  words1 = words2.
Proof.
  intros Hst H1%words_to_vector_Ok H2%words_to_vector_Ok.
  revert words2 H2. induction H1 as [|w1 i ws1 v Hw1 _ IH]; intros words2 H2.
  - by inversion H2.
  - inversion H2 as [|w2 ? ws2 ? Hw2 Hrest]; subst. f_equal.
    + by eapply word_idx_inj.
    + by apply IH.
Qed.
End StatisticsMore.

Section StatisticsMoreExamples.
Import Py BABI.

Lemma compute_statistics_maxlen_attained_witness :
  ∃ st,
    compute_statistics elements Sample.train_parsed Sample.test_parsed = Ok st
    ∧ story_maxlen st = 6 ∧ query_maxlen st = 4
    ∧ Forall (fun '(s, q, _) => length s ≤ story_maxlen st
                                ∧ length q ≤ query_maxlen st)
             (Sample.train_parsed ++ Sample.test_parsed)
    ∧ (∃ s q a, (s, q, a) ∈ Sample.train_parsed ++ Sample.test_parsed
                ∧ length s = story_maxlen st)
    ∧ (∃ s q a, (s, q, a) ∈ Sample.train_parsed ++ Sample.test_parsed
                ∧ length q = query_maxlen st).
Proof.
  destruct (compute_statistics elements Sample.train_parsed Sample.test_parsed)
    as [st|e] eqn:Hst; [|by vm_compute in Hst].
  assert (story_maxlen st = 6 ∧ query_maxlen st = 4) as [Hs Hq].
  { revert Hst. vm_compute. by intros [= <-]. }
  exists st. split; [done|]. split; [done|]. split; [done|].
  exact (compute_statistics_maxlen_attained elements
           Sample.train_parsed Sample.test_parsed st Hst).
Defined.

Lemma word_idx_order_witness :
  ∃ st,
    compute_statistics elements Sample.train_parsed Sample.test_parsed = Ok st
    ∧ word_idx st !! u "Mary" = Some 4 ∧ word_idx st !! u "hallway" = Some 7
    ∧ (ustring_lt (u "Mary") (u "hallway") ↔ 4 < 7).
Proof.
  destruct (compute_statistics elements Sample.train_parsed Sample.test_parsed)
    as [st|e] eqn:Hst; [|by vm_compute in Hst].
  assert (word_idx st !! u "Mary" = Some 4 ∧ word_idx st !! u "hallway" = Some 7)
    as [H1 H2].
  { revert Hst. vm_compute. by intros [= <-]. }
  exists st. split; [done|]. split; [exact H1|]. split; [exact H2|].
  exact (word_idx_order elements (fun X => reflexivity _)
           Sample.train_parsed Sample.test_parsed st _ _ 4 7 Hst H1 H2).
Defined.

Lemma words_to_vector_inj_witness :
  ∃ st,
    compute_statistics elements Sample.train_parsed Sample.test_parsed = Ok st
    ∧ words_to_vector st [u "Where"; u "is"; u "John"; u "?"] = Ok [5; 8; 3; 2]
    ∧ [u "Where"; u "is"; u "John"; u "?"] = [u "Where"; u "is"; u "John"; u "?"].
Proof.
  destruct (compute_statistics elements Sample.train_parsed Sample.test_parsed)
    as [st|e] eqn:Hst; [|by vm_compute in Hst].
  assert (words_to_vector st [u "Where"; u "is"; u "John"; u "?"] = Ok [5; 8; 3; 2])
    as Hv.
  { revert Hst. vm_compute. by intros [= <-]. }
  exists st. split; [done|]. split; [exact Hv|].
  exact (words_to_vector_inj elements (fun X => reflexivity _)
           Sample.train_parsed Sample.test_parsed st _ _ _ Hst Hv Hv).
Defined.
End StatisticsMoreExamples.

Section Vectoriser.
Import Py BABI.

Variable set_iter : gset ustring → list ustring.
Hypothesis set_iter_elements : ∀ X, set_iter X ≡ₚ elements X.

Context {P : Type}.
Variable pad_sentences : list (list nat) → nat → P.

(** The work of [vectorize_stories] on one example. *)
Local Abbreviation row st :=
  (fun '(story, query, answer) =>
     s ← words_to_vector st story;
     q ← words_to_vector st query;
     a ← one_hot_vector st answer;
     Ok (s, q, a)).

Lemma word_idx_None train test st w :
  compute_statistics set_iter train test = Ok st →
  word_idx st !! w = None ↔ ¬ occurs w (train ++ test).
Proof.
  intros Hst.
  pose proof (compute_statistics_Ok_inv _ _ _ _ Hst) as Hne.
  destruct (compute_statistics_spec set_iter set_iter_elements train test Hne)
    as (st' & vocab & Hst' & _ & Helem & _ & Hidx).
  assert (st' = st) as -> by congruence.
  split.
  - intros Hnone Hocc.
    destruct (word_idx_defined set_iter set_iter_elements _ _ _ _ Hst Hocc) as [i Hi].
    congruence.
  - intros Hnot. destruct (word_idx st !! w) as [i|] eqn:Hi; [|done].
    destruct Hnot. apply Hidx in Hi as (j & _ & Hj).
    by apply Helem, (list_elem_of_lookup_2 _ j).
Qed.

Lemma one_hot_vector_length st answer v :
  one_hot_vector st answer = Ok v → length v = vocab_size st.
Proof.
  unfold one_hot_vector. destruct (getitem st answer) as [i|]; [|done].
  rewrite bind_Ok. destruct (i <? _); [|done].
  intros [= <-]. by rewrite length_insert, length_replicate.
Qed.

Lemma one_hot_vector_Raise train test st answer e :
  compute_statistics set_iter train test = Ok st →
  one_hot_vector st answer = Raise e →
  e = KeyError ∧ word_idx st !! answer = None.
Proof.
  intros Hst. unfold one_hot_vector, getitem.
  destruct (word_idx st !! answer) as [i|] eqn:Hi; [|by intros [= <-]].
  rewrite bind_Ok, length_replicate.
  destruct (word_idx_range set_iter set_iter_elements _ _ _ _ _ Hst Hi) as [_ Hlt].
  by destruct (Nat.ltb_spec i (vocab_size st)); [|lia].
Qed.

Lemma row_Ok st s q a vs vq va :
  row st (s, q, a) = Ok (vs, vq, va) →
  words_to_vector st s = Ok vs ∧ words_to_vector st q = Ok vq
  ∧ one_hot_vector st a = Ok va.
Proof.
  cbv beta iota.
  destruct (words_to_vector st s); [|discriminate]. rewrite bind_Ok.
  destruct (words_to_vector st q); [|discriminate]. rewrite bind_Ok.
  destruct (one_hot_vector st a); [|discriminate]. rewrite bind_Ok.
  by intros [= <- <- <-].
Qed.

Lemma row_Raise train test st s q a e :
  compute_statistics set_iter train test = Ok st →
  row st (s, q, a) = Raise e →
  e = KeyError
  ∧ ∃ w, (w ∈ s ∨ w ∈ q ∨ w = a) ∧ word_idx st !! w = None.
Proof.
  intros Hst. cbv beta iota.
  destruct (words_to_vector st s) as [vs|e1] eqn:Hs.
  - rewrite bind_Ok. destruct (words_to_vector st q) as [vq|e2] eqn:Hq.
    + rewrite bind_Ok. destruct (one_hot_vector st a) as [va|e3] eqn:Ha; [done|].
      intros [= <-]. destruct (one_hot_vector_Raise _ _ _ _ _ Hst Ha) as [-> ?].
      split; [done|]. exists a. auto.
    + intros [= <-]. apply words_to_vector_Raise in Hq as [-> (w & ? & ?)].
      split; [done|]. exists w. auto.
  - intros [= <-]. apply words_to_vector_Raise in Hs as [-> (w & ? & ?)].
    split; [done|]. exists w. auto.
Qed.

Lemma vectorize_stories_Ok train test st data :
  compute_statistics set_iter train test = Ok st →
  data ⊆ train ++ test →
  ∃ s q a,
    vectorize_stories pad_sentences st data
    = Ok (pad_sentences s (story_maxlen st), pad_sentences q (query_maxlen st), a)
    ∧ Forall2 (fun ex r => words_to_vector st ex.1.1 = Ok r
                           ∧ length r = length ex.1.1
                           ∧ length r ≤ story_maxlen st) data s
    ∧ Forall2 (fun ex r => words_to_vector st ex.1.2 = Ok r
                           ∧ length r = length ex.1.2
                           ∧ length r ≤ query_maxlen st) data q
    ∧ Forall2 (fun ex r => one_hot_vector st ex.2 = Ok r
                           ∧ length r = vocab_size st) data a.
Proof.
  intros Hst Hsub. unfold vectorize_stories.
  destruct (mapM_total (row st) data) as [rows Hrows].
  { intros [[s q] a] Hin.
    destruct (example_vectorized set_iter set_iter_elements _ _ _ _ _ _ Hst (Hsub _ Hin))
      as (vs & vq & va & -> & _ & -> & _ & ->).
    by eexists. }
  rewrite Hrows, bind_Ok. eexists _, _, _. split; [reflexivity|].
  apply mapM_Ok in Hrows.
  pose proof (compute_statistics_maxlen set_iter _ _ _ Hst) as Hmax.
  rewrite Forall_forall in Hmax.
  assert (Forall2 (fun ex r =>
            ex ∈ train ++ test ∧ row st ex = Ok r) data rows) as Hall.
  { clear -Hrows Hsub. induction Hrows as [|ex r d k Hr _ IH]; constructor.
    - split; [apply Hsub; by left|done].
    - apply IH. intros x Hx. apply Hsub. by right. }
  clear Hrows. repeat split.
  - apply Forall2_fmap_r. eapply Forall2_impl; [exact Hall|].
    intros [[s q] a] [[vs vq] va] [Hin (Hs & _ & _)%row_Ok]. cbn.
    pose proof (Hmax _ Hin) as [Hle _]. cbn in Hle.
    apply words_to_vector_Ok in Hs as Hlen. apply Forall2_length in Hlen.
    repeat split; [done|done|lia].
  - apply Forall2_fmap_r. eapply Forall2_impl; [exact Hall|].
    intros [[s q] a] [[vs vq] va] [Hin (_ & Hq & _)%row_Ok]. cbn.
    pose proof (Hmax _ Hin) as [_ Hle]. cbn in Hle.
    apply words_to_vector_Ok in Hq as Hlen. apply Forall2_length in Hlen.
    repeat split; [done|done|lia].
  - apply Forall2_fmap_r. eapply Forall2_impl; [exact Hall|].
    intros [[s q] a] [[vs vq] va] [Hin (_ & _ & Ha)%row_Ok]. cbn.
    split; [done|]. by eapply one_hot_vector_length.
Qed.

(** X14.  On examples of the two splits [vectorize_stories] returns,
    with one row per example in each of the three arrays; a story row and
    a query row have one index per word and are never longer than
    [story_maxlen] and [query_maxlen], the widths given to
    [pad_sentences], and an answer row has [vocab_size] entries. *)
Theorem vectorize_stories_rows train test st data :
  compute_statistics set_iter train test = Ok st →
  data ⊆ train ++ test →
  ∃ s q a,
    vectorize_stories pad_sentences st data
    = Ok (pad_sentences s (story_maxlen st), pad_sentences q (query_maxlen st), a)
    ∧ Forall2 (fun ex r => words_to_vector st ex.1.1 = Ok r
                           ∧ length r = length ex.1.1
                           ∧ length r ≤ story_maxlen st) data s
    ∧ Forall2 (fun ex r => words_to_vector st ex.1.2 = Ok r
                           ∧ length r = length ex.1.2
                           ∧ length r ≤ query_maxlen st) data q
    ∧ Forall2 (fun ex r => one_hot_vector st ex.2 = Ok r
                           ∧ length r = vocab_size st) data a.
Proof. apply vectorize_stories_Ok. Qed.

(** X15.  Against the statistics of other data [vectorize_stories] fails
    exactly when an example has a word, in its story, its query or as
    its answer, that is no token of that data; the error is then
    [KeyError], and it raises nothing else. *)
Theorem vectorize_stories_KeyError train test st data :
  compute_statistics set_iter train test = Ok st →
  (vectorize_stories pad_sentences st data = Raise KeyError
   ↔ ∃ s q a w, (s, q, a) ∈ data ∧ (w ∈ s ∨ w ∈ q ∨ w = a)
                ∧ ¬ occurs w (train ++ test))
  ∧ (∀ e, vectorize_stories pad_sentences st data = Raise e → e = KeyError).
Proof.
  intros Hst.
  assert (∀ e, vectorize_stories pad_sentences st data = Raise e →
            e = KeyError
            ∧ ∃ s q a w, (s, q, a) ∈ data ∧ (w ∈ s ∨ w ∈ q ∨ w = a)
                         ∧ ¬ occurs w (train ++ test)) as Hraise.
  { intros e. unfold vectorize_stories.
    destruct (mapM (row st) data) as [rows|e'] eqn:Hm; [done|].
    intros [= <-]. apply mapM_Raise in Hm as ([[s q] a] & Hin & Hrow).
    destruct (row_Raise _ _ _ _ _ _ _ Hst Hrow) as [-> (w & Hw & Hnone)].
    split; [done|]. exists s, q, a, w. repeat split; [done..|].
    by apply (word_idx_None _ _ _ _ Hst). }
  split; [split|].
  - by intros [_ ?]%Hraise.
  - intros (s & q & a & w & Hin & Hw & Hnot%(word_idx_None _ _ _ _ Hst)).
    destruct (vectorize_stories pad_sentences st data) as [out|e] eqn:Hv.
    + exfalso. unfold vectorize_stories in Hv.
      destruct (mapM (row st) data) as [rows|e'] eqn:Hm; [|done].
      apply mapM_Ok in Hm. apply list_elem_of_lookup in Hin as [i Hi].
      destruct (Forall2_lookup_l _ _ _ _ _ Hm Hi) as ([[vs vq] va] & _ & Hrow).
      apply row_Ok in Hrow as (Hs & Hq & Ha).
      destruct Hw as [Hw|[Hw| ->]].
      * apply words_to_vector_Ok in Hs. apply list_elem_of_lookup in Hw as [k Hk].
        destruct (Forall2_lookup_l _ _ _ _ _ Hs Hk) as (? & _ & ?). congruence.
      * apply words_to_vector_Ok in Hq. apply list_elem_of_lookup in Hw as [k Hk].
        destruct (Forall2_lookup_l _ _ _ _ _ Hq Hk) as (? & _ & ?). congruence.
      * apply one_hot_vector_KeyError in Hnot. congruence.
    + by destruct (Hraise e eq_refl) as [-> _].
  - by intros e [? _]%Hraise.
Qed.

(** X16.  [BABI.__init__] on two files that parse: with no example in
    either it raises [TypeError]; with at least one it returns, and the
    arrays of each split have one answer row per example of the split. *)
Theorem init_spec train_file test_file tr te :
  parse_babi train_file = Ok tr →
  parse_babi test_file = Ok te →
  (tr ++ te = [] →
   init set_iter pad_sentences train_file test_file = Raise TypeError)
  ∧ (tr ++ te ≠ [] →
     ∃ self,
       init set_iter pad_sentences train_file test_file = Ok self
       ∧ train_parsed self = tr ∧ test_parsed self = te
       ∧ compute_statistics set_iter tr te = Ok (stats self)
       ∧ vectorize_stories pad_sentences (stats self) tr = Ok (train self)
       ∧ vectorize_stories pad_sentences (stats self) te = Ok (test self)
       ∧ length (train self).2 = length tr
       ∧ length (test self).2 = length te).
Proof.
  intros Htr Hte. unfold init. rewrite Htr, Hte, !bind_Ok. split.
  - intros [-> ->]%app_eq_nil. done.
  - intros Hne.
    destruct (compute_statistics_spec set_iter set_iter_elements tr te Hne)
      as (st & _ & Hst & _).
    rewrite Hst, bind_Ok.
    destruct (vectorize_stories_Ok tr te st tr Hst) as (s1 & q1 & a1 & H1 & _ & _ & Ha1).
    { intros x Hx. apply elem_of_app. by left. }
    destruct (vectorize_stories_Ok tr te st te Hst) as (s2 & q2 & a2 & H2 & _ & _ & Ha2).
    { intros x Hx. apply elem_of_app. by right. }
    rewrite H1, bind_Ok, H2, bind_Ok. eexists. split; [reflexivity|].
    cbn. repeat split; try done.
    + by apply Forall2_length in Ha1.
    + by apply Forall2_length in Ha2.
Qed.
End Vectoriser.

Section VectoriserExamples.
Import Py BABI.

Lemma vectorize_stories_rows_witness :
  ∃ st s q a,
    compute_statistics elements Sample.train_parsed Sample.test_parsed = Ok st
    ∧ vectorize_stories (fun rows _ => rows) st Sample.test_parsed
      = Ok (s, q, a)
    ∧ Forall2 (fun ex r => words_to_vector st ex.1.1 = Ok r
                           ∧ length r = length ex.1.1
                           ∧ length r ≤ story_maxlen st) Sample.test_parsed s
    ∧ Forall2 (fun ex r => words_to_vector st ex.1.2 = Ok r
                           ∧ length r = length ex.1.2
                           ∧ length r ≤ query_maxlen st) Sample.test_parsed q
    ∧ Forall2 (fun ex r => one_hot_vector st ex.2 = Ok r
                           ∧ length r = vocab_size st) Sample.test_parsed a.
Proof.
  destruct (compute_statistics elements Sample.train_parsed Sample.test_parsed)
    as [st|e] eqn:Hst; [|by vm_compute in Hst].
  destruct (vectorize_stories_rows elements (fun X => reflexivity _)
              (fun rows _ => rows) Sample.train_parsed Sample.test_parsed st
              Sample.test_parsed Hst)
    as (s & q & a & H).
  { intros x Hx. apply elem_of_app. by right. }
  by exists st, s, q, a.
Defined.

Lemma vectorize_stories_KeyError_witness :
  ∃ st,
    compute_statistics elements Sample.train_parsed Sample.test_parsed = Ok st
    ∧ vectorize_stories (fun rows _ => rows) st
        [([u "Sandra"; u "moved"], [u "Where"; u "?"], u "garden")]
      = Raise KeyError
    ∧ ∃ s q a w,
        (s, q, a) ∈ [([u "Sandra"; u "moved"], [u "Where"; u "?"], u "garden")]
        ∧ (w ∈ s ∨ w ∈ q ∨ w = a)
        ∧ ¬ occurs w (Sample.train_parsed ++ Sample.test_parsed).
Proof.
  destruct (compute_statistics elements Sample.train_parsed Sample.test_parsed)
    as [st|e] eqn:Hst; [|by vm_compute in Hst].
  assert (vectorize_stories (fun rows _ => rows) st
            [([u "Sandra"; u "moved"], [u "Where"; u "?"], u "garden")]
          = Raise KeyError) as Hv.
  { revert Hst. vm_compute. by intros [= <-]. }
  exists st. split; [done|]. split; [exact Hv|].
  by apply (vectorize_stories_KeyError elements (fun X => reflexivity _)
              (fun rows _ => rows) Sample.train_parsed Sample.test_parsed st _ Hst).
Defined.

Lemma init_spec_witness :
  ∃ self,
    init elements (fun rows _ => rows)
      (bytes_of_string
         ("1 Mary moved to the bathroom." ++ nl
          ++ "2 Where is Mary?" ++ tab ++ "bathroom" ++ tab ++ "1" ++ nl))
      (bytes_of_string
         ("1 John moved to the hallway." ++ nl
          ++ "2 Where is John?" ++ tab ++ "hallway" ++ tab ++ "1" ++ nl))
    = Ok self
    ∧ train_parsed self = Sample.train_parsed
    ∧ test_parsed self = Sample.test_parsed
    ∧ length (train self).2 = 1
    ∧ length (test self).2 = 1.
Proof.
  destruct (init_spec elements (fun X => reflexivity _) (fun rows _ => rows)
              (bytes_of_string
                 ("1 Mary moved to the bathroom." ++ nl
                  ++ "2 Where is Mary?" ++ tab ++ "bathroom" ++ tab ++ "1" ++ nl))
              (bytes_of_string
                 ("1 John moved to the hallway." ++ nl
                  ++ "2 Where is John?" ++ tab ++ "hallway" ++ tab ++ "1" ++ nl))
              Sample.train_parsed Sample.test_parsed)
    as [_ Hok]; [vm_compute; reflexivity..|].
  destruct Hok as (self & Hinit & Htr & Hte & _ & _ & _ & Hl1 & Hl2); [discriminate|].
  exists self. repeat split; assumption.
Defined.
End VectoriserExamples.

(** ** More on the minibatch iterator *)

Section QAMore.
Import Py QA.
Context {A F T : Type}.
Variable float32 : A → F.
Variable be_array : ndarray F → T.
Variable bsz : nat.

Local Abbreviation qa := (QA.t (A := A)).
Local Abbreviation batch_at := (QA.batch_at float32 be_array bsz).
Local Abbreviation next := (QA.next float32 be_array bsz).
Local Abbreviation tensor_of := (QA.tensor_of float32 be_array).

(** X17.  The cursor belongs to the object, not to the generator: once a
    second generator over the same object has taken its first batch, a
    generator that was suspended continues with the second batch,
    wherever it stood before. *)
Theorem second_generator_moves_first (self : qa) :
  1 < nbatches self →
  ∃ self1 self2,
    next Created self = Yield (batch_at self 0) self1
    ∧ batch_index self1 = Some 1
    ∧ next Suspended self1 = Yield (batch_at self 1) self2
    ∧ batch_index self2 = Some 2.
Proof.
  intros Hnb.
  exists (set_batch_index self 1), (set_batch_index self 2).
  cbn [QA.next]. unfold QA.loop. cbn [batch_index set_batch_index nbatches].
  destruct (Nat.ltb_spec 0 (nbatches self)); [|lia].
  destruct (Nat.ltb_spec 1 (nbatches self)); [|lia].
  done.
Qed.

(** The columns of a rectangular list of rows. *)
Lemma transpose_lookup (l : list (list A)) n j :
  Forall (fun r => length r = n) l → j < n →
  ∃ col, foldr (zip_with cons) (replicate n []) l !! j = Some col
         ∧ Forall2 (fun r x => r !! j = Some x) l col.
Proof.
  intros Hl Hj. induction Hl as [|r l Hr _ IH]; cbn [foldr].
  - exists []. split; [by apply lookup_replicate_2|constructor].
  - destruct IH as (col & Hcol & Hall).
    destruct (lookup_lt_is_Some_2 r j) as [x Hx]; [lia|].
    exists (x :: col). split; [|by constructor].
    by rewrite lookup_zip_with, Hx, Hcol.
Qed.

Lemma length_transpose_rows (l : list (list A)) n :
  Forall (fun r => length r = n) l →
  length (foldr (zip_with cons) (replicate n []) l) = n.
Proof.
  induction 1 as [|r l Hr _ IH]; cbn [foldr]; [apply length_replicate|].
  rewrite length_zip_with. lia.
Qed.

Lemma slice_rows_well_formed (a : ndarray A) start end_ :
  well_formed a → well_formed (slice_rows a start end_).
Proof.
  unfold well_formed, slice_rows. cbn. intros H.
  by apply Forall_take, Forall_drop.
Qed.

(** X18.  What is handed to the backend for the rows [i * bsz] to
    [(i + 1) * bsz] of a rectangular array that has that many rows: an
    array with one row per column of the original and [bsz] entries in
    each, whose entry [(j, k)] is the cast of the entry [(i * bsz + k, j)]
    of the original. *)
Theorem batch_shape (a : ndarray A) i :
  well_formed a →
  (i + 1) * bsz ≤ len a →
  ∃ b : ndarray F,
    tensor_of a (i * bsz) ((i + 1) * bsz) = be_array b
    ∧ length (rows b) = ncols a
    ∧ ncols b = bsz
    ∧ well_formed b
    ∧ (∀ j k, j < ncols a → k < bsz →
         item b j k = float32 <$> item a (i * bsz + k) j).
Proof.
  intros Hwf Hlen.
  pose proof (slice_rows_well_formed a (i * bsz) ((i + 1) * bsz) Hwf) as Hs.
  pose proof (slice_rows_full bsz a i Hlen) as Hn.
  pose proof (slice_rows_batch bsz a i) as Hrows.
  set (sl := slice_rows a (i * bsz) ((i + 1) * bsz)) in *.
  assert (ncols sl = ncols a) as Hc by done.
  assert (tensor_of a (i * bsz) ((i + 1) * bsz)
          = be_array (astype float32 (transpose sl))) as Ht by done.
  clearbody sl. unfold well_formed in Hs. rewrite Hc in Hs.
  exists (astype float32 (transpose sl)). split; [exact Ht|]. clear Ht.
  split; [|split; [|split]].
  - cbn. rewrite length_map, Hc. by apply length_transpose_rows.
  - done.
  - unfold well_formed. cbn. rewrite Hn, Hc. apply Forall_forall.
    intros r (r' & -> & Hr')%list_elem_of_fmap. rewrite length_map.
    apply list_elem_of_lookup in Hr' as [j Hj].
    assert (j < ncols a) as Hjn.
    { apply lookup_lt_Some in Hj. by rewrite length_transpose_rows in Hj. }
    destruct (transpose_lookup (rows sl) (ncols a) j Hs Hjn) as (col & Hcol & Hall).
    assert (r' = col) as -> by congruence.
    apply Forall2_length in Hall. congruence.
  - intros j k Hj Hk. unfold item. cbn. rewrite Hc.
    destruct (transpose_lookup (rows sl) (ncols a) j Hs Hj) as (col & Hcol & Hall).
    rewrite list_lookup_fmap, Hcol. cbn. rewrite list_lookup_fmap.
    assert (rows sl !! k = rows a !! (i * bsz + k)) as Hk'.
    { rewrite Hrows, lookup_take_lt by done. by rewrite lookup_drop. }
    rewrite <- Hk'.
    destruct (lookup_lt_is_Some_2 (rows sl) k) as [r Hr]; [lia|].
    destruct (Forall2_lookup_l _ _ _ _ _ Hall Hr) as (x & Hx & Hrx).
    rewrite Hr, Hx. cbn. by rewrite Hrx.
Qed.
End QAMore.

Section QAMoreExamples.
Import Py QA.

Lemma second_generator_moves_first_witness :
  ∃ self1 self2,
    next id id 3 Created
      (Make Sample.story10 Sample.query10 Sample.answer10
            10 3 2 1 [(2, 1); (1, 1)] (Some 2))
    = Yield ((Ndarray [[0; 1; 2]; [1; 2; 3]] 3, Ndarray [[0; 1; 2]] 3),
             Ndarray [[0; 0; 0]; [1; 1; 1]; [0; 0; 0]] 3) self1
    ∧ batch_index self1 = Some 1
    ∧ next id id 3 Suspended self1
      = Yield ((Ndarray [[3; 4; 5]; [4; 5; 6]] 3, Ndarray [[3; 4; 5]] 3),
               Ndarray [[0; 0; 0]; [1; 1; 1]; [0; 0; 0]] 3) self2
    ∧ batch_index self2 = Some 2.
Proof.
  apply (second_generator_moves_first id id 3
           (Make Sample.story10 Sample.query10 Sample.answer10
                 10 3 2 1 [(2, 1); (1, 1)] (Some 2))).
  vm_compute. lia.
Defined.

Lemma batch_shape_witness :
  ∃ b : ndarray nat,
    tensor_of id id Sample.story10 (2 * 3) ((2 + 1) * 3) = b
    ∧ length (rows b) = 2
    ∧ ncols b = 3
    ∧ well_formed b
    ∧ (∀ j k, j < 2 → k < 3 → item b j k = id <$> item Sample.story10 (2 * 3 + k) j).
Proof.
  apply (batch_shape id id 3 Sample.story10 2).
  - vm_compute. repeat constructor.
  - vm_compute. lia.
Defined.
End QAMoreExamples.

(** ** The story of an example *)

Section StoryBlock.
Import Py BABI.

(** A sentence line that does not start a story. *)
Local Abbreviation sentence_line :=
  (fun line : ustring =>
     ∃ nid text n, split_once SPACE line = Some (nid, text)
                   ∧ int nid = Ok n ∧ n ≠ 1%Z
                   ∧ existsb (N.eqb TAB) text = false).

Lemma parse_sentence_line st line nid text n :
  split_once SPACE line = Some (nid, text) → int nid = Ok n →
  existsb (N.eqb TAB) text = false →
  parse_line st line
  = Ok (Parser (data st)
               ((if (n =? 1)%Z then [] else story st)
                ++ [Sentence (tokenize (text_of line))])).
Proof.
  intros Hs Hi Ht. unfold parse_line, text_of. by rewrite Hs, Hi, bind_Ok, Ht.
Qed.

Lemma parse_sentence_lines st sentences :
  Forall sentence_line sentences →
  parse_lines st sentences
  = Ok (Parser (data st)
               (story st
                ++ map (fun line => Sentence (tokenize (text_of line))) sentences)).
Proof.
  intros Hall. revert st.
  induction Hall as [|line sentences (nid & text & n & Hs & Hi & Hn & Ht) _ IH];
    intros st; cbn [parse_lines map].
  - rewrite app_nil_r. by destruct st.
  - rewrite (parse_sentence_line _ _ _ _ _ Hs Hi Ht), bind_Ok, IH. cbn [data story].
    destruct (Z.eqb_spec n 1); [done|]. by rewrite <- app_assoc.
Qed.

Lemma substory_of_sentences (sents : list (list ustring)) :
  substory_of (map Sentence sents) = List.filter truthy sents.
Proof.
  unfold substory_of. induction sents as [|x sents IH]; [done|].
  cbn [map omap list_omap kept List.filter]. rewrite <- IH.
  by destruct (truthy x).
Qed.

(** X19.  The story recorded with a question is made of the sentences
    since the line numbered 1, in order, each tokenised, those without a
    token left out; the question itself does not join the story: the
    sentences a later question of the same story would get are the same
    ones. *)
Theorem parse_story_block st first sentences qline nid text nidq textq n q a supporting :
  split_once SPACE first = Some (nid, text) →
  int nid = Ok 1%Z →
  existsb (N.eqb TAB) text = false →
  Forall sentence_line sentences →
  split_once SPACE qline = Some (nidq, textq) →
  int nidq = Ok n → n ≠ 1%Z →
  split_char TAB textq = [q; a; supporting] →
  ∃ st',
    parse_lines st (first :: sentences ++ [qline]) = Ok st'
    ∧ data st'
      = data st
        ++ [(List.filter truthy
               (map (fun line => tokenize (text_of line)) (first :: sentences)),
             tokenize q, a)]
    ∧ substory_of (story st')
      = List.filter truthy
          (map (fun line => tokenize (text_of line)) (first :: sentences)).
Proof.
  intros Hs Hi Ht Hall Hsq Hiq Hn Hq.
  assert (existsb (N.eqb TAB) textq = true) as Htq.
  { destruct (existsb (N.eqb TAB) textq) eqn:E; [done|].
    by rewrite (split_char_no_sep _ _ E) in Hq. }
  cbn [parse_lines]. rewrite (parse_sentence_line _ _ _ _ _ Hs Hi Ht), bind_Ok.
  rewrite parse_lines_app, parse_sentence_lines by done. rewrite bind_Ok.
  cbn [parse_lines data story]. unfold parse_line at 1.
  rewrite Hsq, Hiq, bind_Ok, Htq, Hq. cbn [data story].
  destruct (Z.eqb_spec n 1); [done|]. rewrite bind_Ok.
  assert (substory_of
            (([] ++ [Sentence (tokenize (text_of first))])
             ++ map (fun line => Sentence (tokenize (text_of line))) sentences)
          = List.filter truthy
              (map (fun line => tokenize (text_of line)) (first :: sentences)))
    as Hsub.
  { rewrite <- substory_of_sentences. cbn [app map]. f_equal.
    by rewrite map_map. }
  eexists. split; [reflexivity|]. cbn [data story].
  change (1 =? 1)%Z with true. cbv iota. split.
  - by rewrite Hsub.
  - unfold substory_of in *. rewrite omap_app. cbn [omap list_omap kept].
    by rewrite app_nil_r.
Qed.

Lemma parse_story_block_witness :
  ∃ st',
    parse_lines (Parser [] [Sentence [u "old"]])
      (u "1 Mary moved to the bathroom."
       :: [u "2 John went to the hallway."]
       ++ [bytes_of_string ("3 Where is Mary?" ++ tab ++ "bathroom" ++ tab ++ "1")])
    = Ok st'
    ∧ data st'
      = [] ++ [(List.filter truthy
                  (map (fun line => tokenize (text_of line))
                       [u "1 Mary moved to the bathroom.";
                        u "2 John went to the hallway."]),
                tokenize (u "Where is Mary?"), u "bathroom")]
    ∧ substory_of (story st')
      = List.filter truthy
          (map (fun line => tokenize (text_of line))
               [u "1 Mary moved to the bathroom.";
                u "2 John went to the hallway."]).
Proof.
  apply (parse_story_block (Parser [] [Sentence [u "old"]])
           (u "1 Mary moved to the bathroom.") [u "2 John went to the hallway."]
           (bytes_of_string ("3 Where is Mary?" ++ tab ++ "bathroom" ++ tab ++ "1"))
           (u "1") (u "Mary moved to the bathroom.")
           (u "3") (bytes_of_string ("Where is Mary?" ++ tab ++ "bathroom" ++ tab ++ "1"))
           3%Z (u "Where is Mary?") (u "bathroom") (u "1"));
    try (vm_compute; reflexivity).
  - constructor; [|constructor].
    exists (u "2"), (u "John went to the hallway."), 2%Z.
    repeat split; try (vm_compute; reflexivity). discriminate.
  - discriminate.
Defined.
End StoryBlock.

Section ParserExamples.
Import Py BABI.

Lemma parse_babi_story_nonempty_witness :
  tokenize (u "Mary moved to the bathroom.") ≠ [].
Proof.
  apply (parse_babi_story_nonempty
           (bytes_of_string
              ("1 Mary moved to the bathroom." ++ nl
               ++ "2 Where is Mary?" ++ tab ++ "bathroom" ++ tab ++ "1" ++ nl))
           [(tokenize (u "Mary moved to the bathroom."),
             tokenize (u "Where is Mary?"), u "bathroom")]
           _ (tokenize (u "Where is Mary?")) (u "bathroom")).
  - vm_compute. reflexivity.
  - left.
Defined.
(** An index may be written with the decimal digits of any script:
    U+0661, Arabic-Indic digit one, starts a story like [1]. *)
Example int_arabic_indic_one :
  int [1633%N] = Ok 1%Z
  ∧ parse_babi ([217%N; 161%N] ++ bytes_of_string (" Mary moved." ++ nl)) = Ok [].
Proof. split; vm_compute; reflexivity. Qed.
End ParserExamples.
